(** * github-action-aws-ecs-run-task: a shallow embedding of [src/index.js]

    The action launches one ECS task, asks to wait for it to run and to
    stop, optionally looks up the log destination, and reports the outcome.
    This file embeds the code of [main] and [pollLogEvents] and checks the
    statements of the specification against it.

    Conventions of the embedding:
    - a JavaScript string is a [string] that holds the bytes of its UTF-8
      encoding, the encoding in which the inputs reach the action.  The
      characters the code looks for (the backslash, [=], [/], LF and CR)
      are one byte each; the two other line terminators of the regular
      expression engine, U+2028 and U+2029, are three bytes each;
    - [undefined] and [null] are [None] at an option type;
    - an array that the code mutates through its indices is a list used with
      stdpp's lookup [!!] and insert [<[i:=x]>];
    - the services the action talks to (ECS, CloudWatch Logs, the clock) are
      the fields of a record [World], and every call leaves an [event] in
      the trace of the state;
    - [ecs] is the [ECSClient] of lines 3 and 9, the bare client of
      [@aws-sdk/client-ecs]: it sends commands with [send] and has no
      method [waitFor];
    - the calls of [core] ([debug], [info], [setOutput], [setFailed]) and of
      [console] are events of the same trace. *)

From stdpp Require Import base option list strings gmap.
From Stdlib Require Import ZArith Ascii Lia.

(** Appending to a string that starts with a character computes. *)
#[local] Arguments String.append !s1 s2 : simpl nomatch.

(** ** Strings *)

Module Str.

(** The continuation marker of a command line, a backslash. *)
Definition backslash : ascii := "\"%char.

(** [x.endsWith('\\')]: the last character of [x] is a backslash. *)
Fixpoint endsWithBackslash (x : string) : bool :=
  match x with
  | EmptyString => false
  | String a EmptyString => Ascii.eqb a backslash
  | String _ rest => endsWithBackslash rest
  end.

(** [x.replace(/\\$/, '')]: without the [m] flag [$] only matches at the
    end of the input, so the one backslash that ends [x], if any, is
    removed. *)
Fixpoint replaceTrailingBackslash (x : string) : string :=
  match x with
  | EmptyString => EmptyString
  | String a EmptyString =>
      if Ascii.eqb a backslash then EmptyString else x
  | String a rest => String a (replaceTrailingBackslash rest)
  end.

(** A string is truthy when it is not empty. *)
Definition truthy (x : string) : bool :=
  match x with
  | EmptyString => false
  | String _ _ => true
  end.

(** The line terminators, which [.] does not match: LF, CR, the line
    separator U+2028 and the paragraph separator U+2029, the last two in
    the three bytes of their encoding. *)
Definition lineFeed : string := String "010"%char EmptyString.

Definition carriageReturn : string := String "013"%char EmptyString.

Definition lineSeparator : string :=
  String "226"%char (String "128"%char (String "168"%char EmptyString)).

Definition paragraphSeparator : string :=
  String "226"%char (String "128"%char (String "169"%char EmptyString)).

Definition lineTerminators : list string :=
  [lineFeed; carriageReturn; lineSeparator; paragraphSeparator].

(** [x] starts with a line terminator. *)
Definition terminated (x : string) : bool :=
  existsb (fun t => String.prefix t x) lineTerminators.

(** No line terminator occurs in [x]. *)
Fixpoint unbroken (x : string) : bool :=
  match x with
  | EmptyString => true
  | String _ rest => negb (terminated x) && unbroken rest
  end.

#[global] Arguments terminated : simpl never.

Definition isEq (c : ascii) : bool := Ascii.eqb c "="%char.

(** No character of [x] satisfies [p]. *)
Fixpoint noneOf (p : ascii -> bool) (x : string) : bool :=
  match x with
  | EmptyString => true
  | String c rest => negb (p c) && noneOf p rest
  end.

(** [x.split(sep)] for a one-character separator. *)
Fixpoint splitChar (sep : ascii) (x : string) : list string :=
  match x with
  | EmptyString => [EmptyString]
  | String c rest =>
      if Ascii.eqb c sep then EmptyString :: splitChar sep rest
      else match splitChar sep rest with
           | [] => [String c EmptyString]
           | piece :: pieces => String c piece :: pieces
           end
  end.

(** [parts.join(sep)]; an [undefined] element is printed as the empty
    string. *)
Fixpoint join (sep : string) (parts : list (option string)) : string :=
  match parts with
  | [] => EmptyString
  | [p] => default EmptyString p
  | p :: rest => default EmptyString p +:+ sep +:+ join sep rest
  end.

End Str.

(** ** Override Builder: the command (index.js, lines 65-88) *)

Module Command.
Import Str.

(** The array under mutation; [None] is [null]. *)
Abbreviation jsarray := (list (option string)).

(** [a + v] where [v] was read from the array: [null] and a missing
    element are printed by their names. *)
Definition plus (a : string) (v : option (option string)) : string :=
  match v with
  | Some (Some b) => a +:+ b
  | Some None => a +:+ "null"
  | None => a +:+ "undefined"
  end.

(** What [arr[i]] holds once line 73 has stored a string there. *)
Definition read (arr : jsarray) (i : nat) : string :=
  match arr !! i with
  | Some (Some s) => s
  | Some None => "null"
  | None => "undefined"
  end.

(** The body of the callback of [map] (lines 71-81) at element [x] of
    index [i]. *)
Definition callback (x : string) (i : nat) (arr : jsarray) : jsarray :=
  if endsWithBackslash x then
    let arr := <[i := Some (replaceTrailingBackslash x)]> arr in
    if negb (Z.of_nat (length arr) - 1 =? Z.of_nat i)%Z then
      let arr := <[S i := Some (plus (read arr i) (arr !! S i))]> arr in
      <[i := None]> arr
    else arr
  else arr.

(** [arr.map(callback)]: the indices [i, i+1, ...], [count] of them, each
    element read when its turn comes.  Calling [endsWith] on [null] is a
    TypeError, which is [None] here. *)
Fixpoint mapFrom (count i : nat) (arr : jsarray) : option jsarray :=
  match count with
  | O => Some arr
  | S count' =>
      match arr !! i with
      | Some (Some x) => mapFrom count' (S i) (callback x i arr)
      | Some None => None
      | None => mapFrom count' (S i) arr
      end
  end.

(** [arr.filter(x => x)] (line 85): [null] and the empty string go. *)
Definition keep (v : option string) : option string :=
  match v with
  | Some s => if truthy s then Some s else None
  | None => None
  end.

Definition filterTruthy (arr : jsarray) : list string := omap keep arr.

(** Lines 70-85: the parsed command of the fragments [cmd]. *)
Definition parseCommand (cmd : list string) : option (list string) :=
  arr ← mapFrom (length cmd) 0 (Some <$> cmd);
  Some (filterTruthy arr).

(** The same scan as a recursion on the fragments still to visit: [x] is
    the element under the cursor as the callback reads it, [rest] the
    fragments after it. *)
Fixpoint mergeFrom (x : string) (rest : list string) : jsarray :=
  if endsWithBackslash x then
    match rest with
    | [] => [Some (replaceTrailingBackslash x)]
    | y :: rest' => None :: mergeFrom (replaceTrailingBackslash x +:+ y) rest'
    end
  else
    Some x :: match rest with
              | [] => []
              | y :: rest' => mergeFrom y rest'
              end.

Definition merge (cmd : list string) : jsarray :=
  match cmd with
  | [] => []
  | x :: rest => mergeFrom x rest
  end.

End Command.

(** ** Override Builder: the environment (index.js, lines 91-100) *)

Module Environment.
Import Str.

(** Line 94 splits [x] with the regular expression that reads an [=] and
    then, in a capture group, any run of characters other than line
    terminators.  The scan is either in a piece between two matches or in
    the capture group of a match. *)
Inductive scan := InPiece | InCapture.

(** The split of line 94: a match starts at an [=]; its group takes every
    character up to the next line terminator or the end; the pieces
    between the matches and the groups are the parts, in order.  [cur] is
    the part under construction.  A line terminator that ends a group
    opens the next piece. *)
Fixpoint splitFrom (mode : scan) (cur x : string) : list string :=
  match x with
  | EmptyString =>
      match mode with
      | InPiece => [cur]
      | InCapture => [cur; EmptyString]
      end
  | String c rest =>
      match mode with
      | InPiece =>
          if isEq c then cur :: splitFrom InCapture EmptyString rest
          else splitFrom InPiece (cur +:+ String c EmptyString) rest
      | InCapture =>
          if terminated x
          then cur :: splitFrom InPiece (String c EmptyString) rest
          else splitFrom InCapture (cur +:+ String c EmptyString) rest
      end
  end.

Definition split (x : string) : list string :=
  splitFrom InPiece EmptyString x.

(** An entry of [overrides.environment]; a field is [None] when the
    JavaScript value is [undefined]. *)
Record KeyValuePair := {
  name : option string;
  value : option string;
}.

(** The callback of line 93. *)
Definition parseEntry (x : string) : KeyValuePair :=
  let parts := split x in
  {| name := parts !! 0%nat; value := parts !! 1%nat |}.

(** [overrideContainerEnvironment.map(...)] *)
Definition parseEnvironment (env : list string) : list KeyValuePair :=
  parseEntry <$> env.

End Environment.

(** ** The data exchanged with the services *)

(** One entry of [overrides.containerOverrides] (lines 61-63, 88, 93). *)
Record ContainerOverride := {
  co_name : string;
  co_command : option (list string);
  co_environment : option (list Environment.KeyValuePair);
}.

(** [taskRequestParams] (lines 45-57, 102-104); [rp_containerOverrides] is
    [None] as long as [overrides] is not set. *)
Record TaskRequestParams := {
  rp_count : Z;
  rp_cluster : string;
  rp_taskDefinition : string;
  rp_launchType : string;
  rp_subnets : list string;
  rp_assignPublicIp : string;
  rp_securityGroups : list string;
  rp_containerOverrides : option (list ContainerOverride);
}.

Record Task := { taskArn : option string }.
Record RunTaskResponse := { rt_tasks : list Task }.

Record LogConfiguration := {
  logDriver : string;
  options : option (gmap string string);
}.
Record ContainerDefinition := {
  cd_name : string;
  logConfiguration : option LogConfiguration;
}.
Record TaskDefinition := {
  containerDefinitions : option (list ContainerDefinition);
}.
Record DescribeTaskDefinitionResponse := {
  taskDefinition : option TaskDefinition;
}.

Record Container := { exitCode : option Z }.
Record DescribedTask := {
  containers : list Container;
  stoppedReason : option string;
}.
Record DescribeTasksResponse := { dt_tasks : list DescribedTask }.

Record GetLogEventsCommand := {
  logGroupName : string;
  logStreamName : string;
  startTime : Z;
}.
Record LogEvent := { timestamp : Z; message : string }.

(** The two waiters the action names (lines 122 and 130). *)
Inductive Waiter := tasksRunning | tasksStopped.

(** What can be thrown: a TypeError of the engine and the rejection of a
    call by a service. *)
Inductive error :=
| TypeError (what : string)
| Rejected (reason : string).

(** A number as [parseInt] returns it (line 42): [NaN] when the input does
    not start with an integer, as when it is not given; otherwise an
    integer, or an infinity when the digits are too many. *)
Inductive number :=
| NaN
| Infinity (negative : bool)
| Integer (z : Z).

(** The inputs of the action (lines 31-42), as read by [core]. *)
Record Inputs := {
  cluster : string;
  taskDefinitionRef : string;
  subnets : list string;
  securityGroups : list string;
  tailLogs : bool;
  assignPublicIp : string;
  overrideContainer : string;
  overrideContainerCommand : list string;
  overrideContainerEnvironment : list string;
  taskStoppedWaitForMaxAttempts : number;
}.

(** ** Events *)

(** The argument of [core.debug]. *)
Inductive diagnostic :=
| Text (s : string)
| ResultingCommand (parsedCommand : list string)
| RequestParams (p : TaskRequestParams)
| Stack (e : error).

(** The argument of [core.setFailed]: the message of a caught error
    (line 202) or the stopped reason of the task (line 199), which may be
    [undefined]. *)
Inductive failure :=
| ErrorMessage (e : error)
| StoppedReason (r : option string).

(** What a run leaves in its trace: the calls of [core] and [console], the
    requests sent to the services ([DescribeTaskDefinition] when line 145
    asks for the look-up), and [WaitFor], a waiter of the client started
    with the arguments of lines 122-129 or 130-137. *)
Inductive event :=
| Debug (d : diagnostic)
| Info (s : string)
| SetOutput (key value : string)
| SetFailed (f : failure)
| SendRunTask (p : TaskRequestParams)
| WaitFor (waiter : Waiter) (cluster : string) (tasks : list string)
          (delay : Z) (maxAttempts : number)
| DescribeTaskDefinition (ref : string)
| SendDescribeTasks (cluster : string) (tasks : list string)
| SendGetLogEvents (c : GetLogEventsCommand)
| ConsoleLog (events : list LogEvent)
| ConsoleError (label : string) (e : error).

(** ** The world and the state *)

(** The collaborators.  [ecs_runTask] and [ecs_describeTasks] are the
    answers to the two commands sent with [ecs.send],
    [ecs_describeTaskDefinition] is the outcome of line 145 (an answer, or
    what the call throws), [logs_getLogEvents k] the answer to the [k]-th
    fetch of log events, [clock_now] the time in milliseconds when the log
    stream is set up. *)
Record World := {
  ecs_region : string;
  ecs_runTask : TaskRequestParams -> error + RunTaskResponse;
  ecs_describeTaskDefinition : string -> error + DescribeTaskDefinitionResponse;
  ecs_describeTasks : string -> list string -> error + DescribeTasksResponse;
  logs_getLogEvents : nat -> GetLogEventsCommand -> error + list LogEvent;
  clock_now : Z;
}.

(** The state of a run: the trace so far, the number of log fetches made,
    and the two variables of lines 140-141. *)
Record State := {
  trace : list event;
  fetches : nat;
  logFilterStream : option GetLogEventsCommand;
  logOutput : string;
}.

Definition initial : State :=
  {| trace := []; fetches := 0;
     logFilterStream := None; logOutput := EmptyString |}.

(** ** A state and exception monad *)

Inductive completion (A : Type) :=
| Normal (a : A)
| Thrown (e : error).
Arguments Normal {A} a.
Arguments Thrown {A} e.

Definition M (A : Type) : Type := State -> completion A * State.

Definition ret {A} (a : A) : M A := fun s => (Normal a, s).

Definition bind {A B} (m : M A) (k : A -> M B) : M B :=
  fun s =>
    match m s with
    | (Normal a, s') => k a s'
    | (Thrown e, s') => (Thrown e, s')
    end.

Definition throw {A} (e : error) : M A := fun s => (Thrown e, s).

(** [try { body } catch (error) { handler }] *)
Definition tryCatch {A} (body : M A) (handler : error -> M A) : M A :=
  fun s =>
    match body s with
    | (Normal a, s') => (Normal a, s')
    | (Thrown e, s') => handler e s'
    end.

(** stdpp's notations [x ← m; k] and [m;; k] for this monad. *)
#[global] Instance M_ret : MRet M := @ret.
#[global] Instance M_bind : MBind M := fun A B k m => bind m k.

Definition getState : M State := fun s => (Normal s, s).

Definition modify (f : State -> State) : M unit := fun s => (Normal tt, f s).

(** Reading a property of a value that is [undefined] is a TypeError. *)
Definition defined {A} (v : option A) (what : string) : M A :=
  match v with
  | Some a => ret a
  | None => throw (TypeError what)
  end.

(** The result of a call to a service: the answer, or the rejection
    thrown. *)
Definition settle {A} (r : error + A) : M A :=
  match r with
  | inr a => ret a
  | inl e => throw e
  end.

Definition setTrace (t : list event) (s : State) : State :=
  {| trace := t; fetches := fetches s;
     logFilterStream := logFilterStream s; logOutput := logOutput s |}.

(** A call that the trace records. *)
Definition emit (e : event) : M unit :=
  modify (fun s => setTrace (trace s ++ [e]) s).

Definition setFetches (n : nat) (s : State) : State :=
  {| trace := trace s; fetches := n;
     logFilterStream := logFilterStream s; logOutput := logOutput s |}.

Definition setLogFilterStream (v : option GetLogEventsCommand) (s : State)
  : State :=
  {| trace := trace s; fetches := fetches s;
     logFilterStream := v; logOutput := logOutput s |}.

Definition newline : string := String "010"%char EmptyString.

(** ** The program *)

Section Program.
Context (w : World).
Import Str.

Definition debug (d : diagnostic) : M unit := emit (Debug d).
Definition info (s : string) : M unit := emit (Info s).
Definition setOutput (key value : string) : M unit :=
  emit (SetOutput key value).
Definition setFailed (f : failure) : M unit := emit (SetFailed f).

(** *** Log events (lines 13-27) *)

(** [cloudwatch.send(command)]: the next answer of the log service. *)
Definition cloudwatchSend (command : GetLogEventsCommand)
  : M (list LogEvent) :=
  emit (SendGetLogEvents command);;
  s ← getState;
  modify (setFetches (S (fetches s)));;
  settle (logs_getLogEvents w (fetches s) command).

(** [pollLogEvents(logGroupName, logStreamName, startTime)] is the
    function of no argument that lines 13-27 return; it is the
    computation below, run once for each call of that function. *)
Definition pollLogEvents (logGroupName logStreamName : string)
    (startTime : Z) : M unit :=
  let command :=
    {| logGroupName := logGroupName; logStreamName := logStreamName;
       startTime := startTime |} in
  tryCatch
    (response ← cloudwatchSend command;
     emit (ConsoleLog response))
    (fun error => emit (ConsoleError "Error fetching log events" error)).

(** The function stored in [logFilterStream], from the arguments it
    closes over. *)
Definition poller (c : GetLogEventsCommand) : M unit :=
  pollLogEvents (logGroupName c) (logStreamName c) (startTime c).

(** [n] calls of a poller in a row. *)
Fixpoint pollTimes (n : nat) (c : GetLogEventsCommand) : M unit :=
  match n with
  | O => ret tt
  | S n' => poller c;; pollTimes n' c
  end.

(** *** Overrides (lines 59-105) *)

Definition buildOverrides (i : Inputs) : M (option (list ContainerOverride)) :=
  if truthy (overrideContainer i) then
    command ←
      match overrideContainerCommand i with
      | [] => ret None
      | _ :: _ =>
          debug (Text "overrideContainer and overrideContainerCommand has been specified. Overriding.");;
          debug (Text "Parsing overrideContainerCommand and merging line appender strings.");;
          parsedCommand ←
            defined (Command.parseCommand (overrideContainerCommand i))
                    "x.endsWith";
          debug (ResultingCommand parsedCommand);;
          ret (Some parsedCommand)
      end;
    environment ←
      match overrideContainerEnvironment i with
      | [] => ret None
      | _ :: _ =>
          debug (Text "overrideContainer and overrideContainerEnvironment has been specified. Overriding.");;
          ret (Some (Environment.parseEnvironment
                       (overrideContainerEnvironment i)))
      end;
    ret (Some [ {| co_name := overrideContainer i;
                   co_command := command;
                   co_environment := environment |} ])
  else ret None.

(** *** Launch (lines 107-118) *)

Definition sendRunTask (p : TaskRequestParams) : M RunTaskResponse :=
  emit (SendRunTask p);; settle (ecs_runTask w p).

(** [taskArn.split('/').pop()]; the split of a string is never empty. *)
Definition taskIdOf (taskArn : string) : string :=
  default EmptyString (last (splitChar "/"%char taskArn)).

(** *** Waiters (lines 120-137) *)

(** [ecs.waitFor(state, {cluster, tasks, $waiter: {delay, maxAttempts}})]
    as [main] calls it (lines 122 and 130).  The client has no property
    [waitFor]: the callee is [undefined], the arguments are evaluated, which
    has no effect, and the call is a TypeError.  No request is sent. *)
Definition waitFor (waiter : Waiter) (cluster : string)
    (tasks : list string) (delay : Z) (maxAttempts : number) : M unit :=
  throw (TypeError "ecs.waitFor is not a function").

(** *** Log destination (lines 139-189) *)

Definition describeTaskDefinition (ref : string)
  : M DescribeTaskDefinitionResponse :=
  emit (DescribeTaskDefinition ref);; settle (ecs_describeTaskDefinition w ref).

(** Line 160: the name of the log stream of a container. *)
Definition logStreamNameOf (opts : gmap string string)
    (containerName taskId : string) : string :=
  join "/" [opts !! "awslogs-stream-prefix"; Some containerName; Some taskId].

(** [logFilterStream.on(...)] (lines 165 and 170) and
    [logFilterStream.close()] (line 185).  The value of [logFilterStream]
    is then the function that [pollLogEvents] returned, and a function
    has no property of these names: the call is a TypeError. *)
Definition callMethod (method : string) : M unit :=
  throw (TypeError ("logFilterStream." +:+ method +:+ " is not a function")).

(** The callback of [some] (lines 150-178). *)
Definition inspect (i : Inputs) (taskId : string)
    (container : ContainerDefinition) : M bool :=
  debug (Text ("Looking for logConfiguration in container '"
               +:+ cd_name container +:+ "'."));;
  if truthy (overrideContainer i)
     && negb (String.eqb (cd_name container) (overrideContainer i))
  then ret false
  else
    match logConfiguration container with
    | Some lc =>
        if String.eqb (logDriver lc) "awslogs" then
          opts ← defined (options lc)
                   "container.logConfiguration.options['awslogs-stream-prefix']";
          let logStreamName :=
            logStreamNameOf opts (cd_name container) taskId in
          debug (Text ("Found matching container with 'awslogs' logDriver. Creating LogStream for '"
                       +:+ logStreamName +:+ "'"));;
          modify (setLogFilterStream
                    (Some {| logGroupName := "log-group-name";
                             logStreamName := "log-stream-name";
                             startTime := (clock_now w / 1000)%Z |}));;
          callMethod "on";;
          callMethod "on";;
          ret true
        else ret false
    | None => ret false
    end.

(** [containerDefinitions.some(callback)] *)
Fixpoint some {A} (callback : A -> M bool) (l : list A) : M bool :=
  match l with
  | [] => ret false
  | a :: rest =>
      found ← callback a;
      if (found : bool) then ret true else some callback rest
  end.

(** Lines 143-189. *)
Definition logPhase (i : Inputs) (taskId : string) : M unit :=
  (if tailLogs i then
     debug (Text "Logging enabled. Getting logConfiguration from TaskDefinition.");;
     response ← describeTaskDefinition (taskDefinitionRef i);
     match taskDefinition response with
     | Some taskDef =>
         match containerDefinitions taskDef with
         | Some defs => some (inspect i taskId) defs;; ret tt
         | None => ret tt
         end
     | None => ret tt
     end
   else ret tt);;
  s ← getState;
  match logFilterStream s with
  | Some _ =>
      debug (Text "Closing logStream.");;
      callMethod "close";;
      setOutput "log-output" (logOutput s)
  | None => ret tt
  end.

(** *** Result (lines 191-200) *)

Definition sendDescribeTasks (cluster : string) (tasks : list string)
  : M DescribeTasksResponse :=
  emit (SendDescribeTasks cluster tasks);;
  settle (ecs_describeTasks w cluster tasks).

(** [exitCode !== 0] *)
Definition notZero (exitCode : option Z) : bool :=
  match exitCode with
  | Some 0%Z => false
  | _ => true
  end.

Definition reconcile (i : Inputs) (taskArn taskId : string) : M unit :=
  debug (Text "Process exit code and exception.");;
  describedTask ← sendDescribeTasks (cluster i) [taskArn];
  task0 ← defined (dt_tasks describedTask !! 0%nat)
            "describedTask.tasks[0].containers";
  container0 ← defined (containers task0 !! 0%nat)
                 "describedTask.tasks[0].containers[0].exitCode";
  if notZero (exitCode container0) then
    info ("Task failed, see details on Amazon ECS console: https://console.aws.amazon.com/ecs/home?region="
          +:+ ecs_region w +:+ "#/clusters/" +:+ cluster i +:+ "/tasks/"
          +:+ taskId +:+ "/details");;
    setFailed (StoppedReason (stoppedReason task0))
  else ret tt.

(** *** [main] (lines 6-205) *)

(** Lines 44-118: the request is built and sent; the result is the pair
    of [taskArn] and [taskId]. *)
Definition launch (i : Inputs) : M (string * string) :=
  containerOverrides ← buildOverrides i;
  let taskRequestParams :=
    {| rp_count := 1;
       rp_cluster := cluster i;
       rp_taskDefinition := taskDefinitionRef i;
       rp_launchType := "FARGATE";
       rp_subnets := subnets i;
       rp_assignPublicIp := assignPublicIp i;
       rp_securityGroups := securityGroups i;
       rp_containerOverrides := containerOverrides |} in
  debug (RequestParams taskRequestParams);;
  debug (Text "Starting task.");;
  task ← sendRunTask taskRequestParams;
  task0 ← defined (rt_tasks task !! 0%nat) "task.tasks[0].taskArn";
  taskArn ← defined (taskArn task0) "taskArn.split";
  let taskId := taskIdOf taskArn in
  setOutput "task-arn" taskArn;;
  setOutput "task-id" taskId;;
  info ("Starting Task with ARN: " +:+ taskArn +:+ newline);;
  ret (taskArn, taskId).

(** Lines 120-137: the two waits, one after the other. *)
Definition awaitTask (i : Inputs) (taskArn : string) : M unit :=
  debug (Text "Waiting for task to be in running state, then to stop.");;
  waitFor tasksRunning (cluster i) [taskArn] 6
          (taskStoppedWaitForMaxAttempts i);;
  waitFor tasksStopped (cluster i) [taskArn] 6
          (taskStoppedWaitForMaxAttempts i).

(** Lines 44-189: all that comes before the result is read. *)
Definition monitor (i : Inputs) : M (string * string) :=
  task ← launch i;
  awaitTask i task.1;;
  logPhase i task.2;;
  ret task.

(** The block of [try] (lines 8-200). *)
Definition attempt (i : Inputs) : M unit :=
  task ← monitor i;
  reconcile i task.1 task.2.

(** The handler of [catch] (lines 202-203). *)
Definition handler (error : error) : M unit :=
  setFailed (ErrorMessage error);;
  debug (Stack error).

Definition main (i : Inputs) : M unit :=
  tryCatch (attempt i) handler.

End Program.

(** A run of the action from the initial state. *)
Definition run (w : World) (i : Inputs) : completion unit * State :=
  main w i initial.

(** ** What a run shows *)

(** The arguments of the calls of [core.setFailed], in order. *)
Definition failures (s : State) : list failure :=
  omap (fun e => match e with SetFailed f => Some f | _ => None end) (trace s).

(** The action succeeds when it never calls [core.setFailed]. *)
Definition succeeded (s : State) : bool :=
  match failures s with
  | [] => true
  | _ :: _ => false
  end.

(** The fetches of log events sent, in order. *)
Definition requests (t : list event) : list GetLogEventsCommand :=
  omap (fun e => match e with SendGetLogEvents c => Some c | _ => None end) t.

(** The log lines printed by the poller, in order. *)
Definition printed (t : list event) : list LogEvent :=
  mjoin (omap (fun e => match e with ConsoleLog l => Some l | _ => None end) t).

(** The waiters started. *)
Definition waiters (t : list event) : list Waiter :=
  omap (fun e => match e with
                 | WaitFor waiter _ _ _ _ => Some waiter
                 | _ => None
                 end) t.

(** Fragments without a continuation marker, and without an empty one. *)
Definition noMarker (cmd : list string) : bool :=
  forallb (fun x => negb (Str.endsWithBackslash x)) cmd.

Definition noEmpty (cmd : list string) : bool := forallb Str.truthy cmd.

Definition plain (cmd : list string) : bool := noMarker cmd && noEmpty cmd.

(** What the slot of the fragment [x] holds when the loop is over: [null],
    or the fragment itself behind what was merged into it, with or without
    its marker. *)
Definition held (x : string) (v : option string) : Prop :=
  v = None
  \/ (exists c, v = Some (c +:+ x))
  \/ (exists c a, x = a +:+ "\" /\ v = Some (c +:+ a)).

(** ** Auxiliary notions *)

(** [P] holds after [m] when it holds before. *)
Definition preserves (P : State -> Prop) {A} (m : M A) : Prop :=
  forall s, P s -> P (m s).2.

(** The world [w] with another log service. *)
Definition withLogs
    (logs : nat -> GetLogEventsCommand -> error + list LogEvent) (w : World)
  : World :=
  {| ecs_region := ecs_region w;
     ecs_runTask := ecs_runTask w;
     ecs_describeTaskDefinition := ecs_describeTaskDefinition w;
     ecs_describeTasks := ecs_describeTasks w;
     logs_getLogEvents := logs;
     clock_now := clock_now w |}.

(** What the poller writes for the answer to a fetch. *)
Definition answerEvent (r : error + list LogEvent) : event :=
  match r with
  | inr events => ConsoleLog events
  | inl e => ConsoleError "Error fetching log events" e
  end.

(** The stream as line 163 sets it up. *)
Definition armed (w : World) : GetLogEventsCommand :=
  {| logGroupName := "log-group-name";
     logStreamName := "log-stream-name";
     startTime := (clock_now w / 1000)%Z |}.

(** The container passes the tests of lines 154 and 159: it has the name
    of the override, when there is one, and it logs to [awslogs]. *)
Definition selects (i : Inputs) (c : ContainerDefinition) : bool :=
  negb (Str.truthy (overrideContainer i)
        && negb (String.eqb (cd_name c) (overrideContainer i)))
  && match logConfiguration c with
     | Some lc => String.eqb (logDriver lc) "awslogs"
     | None => false
     end.

(** The message of line 151 for a container. *)
Definition looking (c : ContainerDefinition) : event :=
  Debug (Text ("Looking for logConfiguration in container '"
               +:+ cd_name c +:+ "'.")).

(** The message of line 161 for the name of a log stream. *)
Definition found (logStreamName : string) : event :=
  Debug (Text ("Found matching container with 'awslogs' logDriver. Creating LogStream for '"
               +:+ logStreamName +:+ "'")).

(** The look-ups of the task definition. *)
Definition discoveries (t : list event) : list string :=
  omap (fun e => match e with
                 | DescribeTaskDefinition ref => Some ref
                 | _ => None
                 end) t.

(** No look-up of the task definition has been made. *)
Definition unsearched (s : State) : Prop := discoveries (trace s) = [].

(** Nothing of the log service shows in a state: no fetch was sent, no
    line printed or kept, and the stream is unset or as line 163 sets it. *)
Definition quietLogs (w : World) (s : State) : Prop :=
  requests (trace s) = [] /\ printed (trace s) = [] /\ fetches s = 0
  /\ logOutput s = EmptyString
  /\ (logFilterStream s = None \/ logFilterStream s = Some (armed w)).

(** No waiter has started and no failure is reported. *)
Definition unstarted (s : State) : Prop :=
  waiters (trace s) = [] /\ failures s = [].

(** No failure is reported. *)
Definition unfailed (s : State) : Prop := failures s = [].

(** ** Further notions *)

(** The fragment [a] with a continuation marker. *)
Definition marked (a : string) : string := a +:+ "\".

(** The strings of a list, one after the other. *)
Definition concatAll (parts : list string) : string :=
  foldr String.append EmptyString parts.

(** What the loop leaves of a last element: the element, without the marker
    that ends it, if any. *)
Definition finish (x : string) : string :=
  if Str.endsWithBackslash x then Str.replaceTrailingBackslash x else x.

(** The string as a command of one token, or of none when it is empty. *)
Definition token (x : string) : list string :=
  if Str.truthy x then [x] else [].

(** The string is empty or starts with a line terminator. *)
Definition cut (rest : string) : bool :=
  match rest with
  | EmptyString => true
  | String _ _ => Str.terminated rest
  end.

Definition isSlash (c : ascii) : bool := Ascii.eqb c "/"%char.

(** The requests to run a task sent, in order. *)
Definition launches (t : list event) : list TaskRequestParams :=
  omap (fun e => match e with SendRunTask p => Some p | _ => None end) t.

(** The outputs set, in order. *)
Definition outputs (t : list event) : list (string * string) :=
  omap (fun e => match e with SetOutput k v => Some (k, v) | _ => None end) t.

(** The final task descriptions asked for, in order. *)
Definition describes (t : list event) : list (string * list string) :=
  omap (fun e => match e with
                 | SendDescribeTasks c ts => Some (c, ts)
                 | _ => None
                 end) t.

Definition isDebug (e : event) : bool :=
  match e with
  | Debug _ => true
  | _ => false
  end.

(** The value of [overrides] when lines 59-105 are over, without the
    diagnostics. *)
Definition overridesOf (i : Inputs) : option (list ContainerOverride) :=
  if Str.truthy (overrideContainer i) then
    Some [ {| co_name := overrideContainer i;
              co_command :=
                match overrideContainerCommand i with
                | [] => None
                | _ :: _ => Command.parseCommand (overrideContainerCommand i)
                end;
              co_environment :=
                match overrideContainerEnvironment i with
                | [] => None
                | _ :: _ =>
                    Some (Environment.parseEnvironment
                            (overrideContainerEnvironment i))
                end |} ]
  else None.

(** The value of [taskRequestParams] when line 110 reads it. *)
Definition requestOf (i : Inputs) : TaskRequestParams :=
  {| rp_count := 1;
     rp_cluster := cluster i;
     rp_taskDefinition := taskDefinitionRef i;
     rp_launchType := "FARGATE";
     rp_subnets := subnets i;
     rp_assignPublicIp := assignPublicIp i;
     rp_securityGroups := securityGroups i;
     rp_containerOverrides := overridesOf i |}.

(** The ARN of the task launched: that of the first task of the answer to
    the request, if the request is answered, with a task, with an ARN. *)
Definition launchedArn (w : World) (i : Inputs) : option string :=
  match ecs_runTask w (requestOf i) with
  | inl _ => None
  | inr resp =>
      match rt_tasks resp with
      | [] => None
      | t :: _ => taskArn t
      end
  end.

(** What stops the launch, if anything does: the rejection of the request,
    or the TypeError of reading an answer without a task or a task without
    an ARN. *)
Definition launchError (w : World) (i : Inputs) : option error :=
  match ecs_runTask w (requestOf i) with
  | inl e => Some e
  | inr resp =>
      match rt_tasks resp with
      | [] => Some (TypeError "task.tasks[0].taskArn")
      | t :: _ =>
          match taskArn t with
          | None => Some (TypeError "taskArn.split")
          | Some _ => None
          end
      end
  end.

(** The log lines of the answers number [k], [k+1], ... of the log service,
    [n] of them, to the fetch [c]; a rejected fetch has none. *)
Fixpoint fetched (w : World) (c : GetLogEventsCommand) (k n : nat)
  : list LogEvent :=
  match n with
  | O => []
  | S n' =>
      match logs_getLogEvents w k c with
      | inr events => events
      | inl _ => []
      end ++ fetched w c (S k) n'
  end.


(** The requests sent so far are [l]. *)
Definition launched (l : list TaskRequestParams) (s : State) : Prop :=
  launches (trace s) = l.

(** The outputs set so far are [o]. *)
Definition exposed (o : list (string * string)) (s : State) : Prop :=
  outputs (trace s) = o.

(** No final task description has been asked for. *)
Definition undescribed (s : State) : Prop := describes (trace s) = [].

(** The waiters started so far are [ws]. *)
Definition waited (ws : list Waiter) (s : State) : Prop :=
  waiters (trace s) = ws.

(** The log stream is not set. *)
Definition unset (s : State) : Prop := logFilterStream s = None.

(** How a phase can leave the log stream: unset, or set up as by line 163
    and the phase stopped by the call of [on]. *)
Definition streamOutcome (w : World) {A} (r : completion A) (s : State)
  : Prop :=
  logFilterStream s = None
  \/ (r = Thrown (TypeError "logFilterStream.on is not a function")
      /\ logFilterStream s = Some (armed w)).

(** ** Sample worlds and inputs *)

Module Sample.

Definition cr : string := String "013"%char EmptyString.

Definition arn : string := "arn:aws:ecs:eu-west-1:123456789012:task/demo/abc123".

Definition appContainer : ContainerDefinition :=
  {| cd_name := "app";
     logConfiguration :=
       Some {| logDriver := "awslogs";
               options := Some {[ "awslogs-stream-prefix" := "ecs" ]} |} |}.

Definition described (code : option Z) (reason : option string)
  : DescribedTask :=
  {| containers := [ {| exitCode := code |} ]; stoppedReason := reason |}.

(** The launch is accepted; the final task description shows the exit code
    [code] and the stopped reason [reason], the look-up of the task
    definition the container [app]; the log service answers every fetch
    with [events]. *)
Definition world (code : option Z) (reason : option string)
    (events : list LogEvent) : World :=
  {| ecs_region := "undefined";
     ecs_runTask := fun _ => inr {| rt_tasks := [ {| taskArn := Some arn |} ] |};
     ecs_describeTaskDefinition := fun _ =>
       inr {| taskDefinition :=
                Some {| containerDefinitions := Some [appContainer] |} |};
     ecs_describeTasks := fun _ _ =>
       inr {| dt_tasks := [described code reason] |};
     logs_getLogEvents := fun _ _ => inr events;
     clock_now := 1700000000123 |}.

(** The launch is accepted and every later call is refused. *)
Definition stuckWorld : World :=
  {| ecs_region := "undefined";
     ecs_runTask := fun _ => inr {| rt_tasks := [ {| taskArn := Some arn |} ] |};
     ecs_describeTaskDefinition := fun _ => inl (Rejected "unused");
     ecs_describeTasks := fun _ _ => inl (Rejected "unused");
     logs_getLogEvents := fun _ _ => inl (Rejected "unused");
     clock_now := 1700000000123 |}.

(** A log service that is down. *)
Definition downWorld : World :=
  {| ecs_region := "undefined";
     ecs_runTask := fun _ => inl (Rejected "unused");
     ecs_describeTaskDefinition := fun _ => inl (Rejected "unused");
     ecs_describeTasks := fun _ _ => inl (Rejected "unused");
     logs_getLogEvents := fun _ _ => inl (Rejected "ThrottlingException");
     clock_now := 0 |}.

Definition inputs (tail : bool) (attempts : nat) : Inputs :=
  {| cluster := "demo";
     taskDefinitionRef := "demo-task";
     subnets := ["subnet-1"];
     securityGroups := ["sg-1"];
     tailLogs := tail;
     assignPublicIp := "ENABLED";
     overrideContainer := "app";
     overrideContainerCommand := ["echo"; "hel\"; "lo"];
     overrideContainerEnvironment := ["KEY=a=b"; "KEY="];
     taskStoppedWaitForMaxAttempts := Integer (Z.of_nat attempts) |}.

Definition line : LogEvent := {| timestamp := 2000; message := "hello" |}.

Definition cursor : GetLogEventsCommand :=
  {| logGroupName := "log-group-name";
     logStreamName := "log-stream-name";
     startTime := 1 |}.

End Sample.

(** * Properties *)

(** ** Strings *)

Section StrFacts.
Import Str.

Lemma endsWithBackslash_app (a : string) :
  endsWithBackslash (a +:+ "\") = true.
Proof.
  induction a as [|c a IH]; [reflexivity|].
  simpl. destruct (a +:+ "\") eqn:E; [|exact IH].
  destruct a; discriminate.
Qed.

Lemma replaceTrailingBackslash_app (a : string) :
  replaceTrailingBackslash (a +:+ "\") = a.
Proof.
  induction a as [|c a IH]; [reflexivity|].
  simpl. destruct (a +:+ "\") eqn:E.
  - destruct a; discriminate.
  - now rewrite IH.
Qed.

Lemma app_empty_r (a : string) : a +:+ EmptyString = a.
Proof. induction a as [|c a IH]; simpl; congruence. Qed.

Lemma app_assoc_str (a b c : string) : (a +:+ b) +:+ c = a +:+ b +:+ c.
Proof. induction a as [|x a IH]; simpl; congruence. Qed.

Lemma noneOf_app (p : ascii -> bool) (a b : string) :
  noneOf p (a +:+ b) = noneOf p a && noneOf p b.
Proof.
  induction a as [|c a IH]; simpl; [reflexivity|].
  rewrite IH. now rewrite andb_assoc.
Qed.

Lemma endsWithBackslash_strip (x : string) :
  endsWithBackslash x = true -> x = replaceTrailingBackslash x +:+ "\".
Proof.
  induction x as [|c x IH]; [discriminate|].
  simpl. destruct x as [|d x].
  - destruct (Ascii.eqb_spec c backslash) as [->|]; [reflexivity|discriminate].
  - intros H. simpl. f_equal. now apply IH.
Qed.

Lemma endsWithBackslash_app_r (c : string) (a : ascii) (x : string) :
  endsWithBackslash (c +:+ String a x) = endsWithBackslash (String a x).
Proof.
  induction c as [|d c IH]; [reflexivity|].
  simpl. destruct (c +:+ String a x) eqn:E; [|exact IH].
  destruct c; discriminate.
Qed.

Lemma replaceTrailingBackslash_app_r (c : string) (a : ascii) (x : string) :
  replaceTrailingBackslash (c +:+ String a x)
  = c +:+ replaceTrailingBackslash (String a x).
Proof.
  induction c as [|d c IH]; [reflexivity|].
  simpl. destruct (c +:+ String a x) eqn:E.
  - destruct c; discriminate.
  - now rewrite IH.
Qed.

Lemma prefix_app (t a b : string) :
  String.prefix t a = true -> String.prefix t (a +:+ b) = true.
Proof.
  revert a. induction t as [|c t IH]; intros a H.
  - now destruct (a +:+ b).
  - destruct a as [|d a]; [discriminate|]. simpl in *.
    destruct (ascii_dec c d); [now apply IH | discriminate].
Qed.

(** A string that starts with a line terminator still does when it is
    extended. *)
Lemma terminated_app (a b : string) :
  terminated a = true -> terminated (a +:+ b) = true.
Proof.
  unfold terminated. rewrite !existsb_exists.
  intros (t & Ht & H). exists t. split; [exact Ht | now apply prefix_app].
Qed.

Lemma unbroken_cons (c : ascii) (x : string) :
  unbroken (String c x) = negb (terminated (String c x)) && unbroken x.
Proof. reflexivity. Qed.

End StrFacts.

(** ** The command *)

Section CommandFacts.
Import Str Command.

Lemma callback_plain (x : string) (i : nat) (arr : jsarray) :
  endsWithBackslash x = false -> callback x i arr = arr.
Proof. intros H. unfold callback. now rewrite H. Qed.

(** The callback at the last element: the marker goes, nothing else
    changes. *)
Lemma callback_last (x : string) (pre : jsarray) :
  endsWithBackslash x = true ->
  callback x (length pre) (pre ++ [Some x])
  = pre ++ [Some (replaceTrailingBackslash x)].
Proof.
  intros H. unfold callback. rewrite H.
  rewrite insert_app_r_alt by lia. rewrite Nat.sub_diag. simpl.
  rewrite length_app. simpl.
  replace (Z.of_nat (length pre + 1) - 1 =? Z.of_nat (length pre))%Z
    with true by (symmetry; apply Z.eqb_eq; lia).
  reflexivity.
Qed.

(** The callback at an element that has a successor: the successor takes
    the element without its marker in front, the element becomes
    [null]. *)
Lemma callback_merge (x y : string) (pre rest : jsarray) :
  endsWithBackslash x = true ->
  callback x (length pre) (pre ++ Some x :: Some y :: rest)
  = pre ++ None :: Some (replaceTrailingBackslash x +:+ y) :: rest.
Proof.
  intros H. unfold callback. rewrite H.
  rewrite insert_app_r_alt by lia. rewrite Nat.sub_diag. simpl.
  rewrite length_app. simpl.
  replace (Z.of_nat (length pre + S (S (length rest))) - 1
           =? Z.of_nat (length pre))%Z
    with false by (symmetry; apply Z.eqb_neq; lia).
  simpl. unfold read.
  rewrite (list_lookup_middle pre _ _ (length pre)) by reflexivity.
  rewrite (lookup_app_r pre) by lia.
  replace (S (length pre) - length pre) with 1 by lia. simpl.
  rewrite (insert_app_r_alt pre _ (S (length pre))) by lia.
  replace (S (length pre) - length pre) with 1 by lia. simpl.
  rewrite insert_app_r_alt by lia. rewrite Nat.sub_diag. reflexivity.
Qed.

(** The loop of [map] from the element [x] on computes [mergeFrom]. *)
Lemma mapFrom_mergeFrom (rest : list string) :
  forall (x : string) (pre : jsarray),
    mapFrom (S (length rest)) (length pre) (pre ++ Some x :: (Some <$> rest))
    = Some (pre ++ mergeFrom x rest).
Proof.
  induction rest as [|y rest IH]; intros x pre.
  - cbn [mapFrom length fmap list_fmap].
    rewrite (list_lookup_middle pre _ _ (length pre)) by reflexivity.
    destruct (endsWithBackslash x) eqn:E.
    + rewrite callback_last by exact E. simpl. now rewrite E.
    + rewrite callback_plain by exact E. simpl. now rewrite E.
  - change (mapFrom (S (length (y :: rest))) (length pre)
              (pre ++ Some x :: (Some <$> y :: rest)))
      with (match (pre ++ Some x :: Some y :: (Some <$> rest)) !! length pre with
            | Some (Some x0) =>
                mapFrom (S (length rest)) (S (length pre))
                  (callback x0 (length pre)
                     (pre ++ Some x :: Some y :: (Some <$> rest)))
            | Some None => None
            | None =>
                mapFrom (S (length rest)) (S (length pre))
                  (pre ++ Some x :: Some y :: (Some <$> rest))
            end).
    rewrite (list_lookup_middle pre _ _ (length pre)) by reflexivity.
    destruct (endsWithBackslash x) eqn:E.
    + rewrite callback_merge by exact E.
      specialize (IH (replaceTrailingBackslash x +:+ y) (pre ++ [None])).
      rewrite length_app in IH. cbn [length] in IH.
      rewrite Nat.add_1_r, <- !app_assoc in IH. cbn [app] in IH.
      rewrite IH. simpl. now rewrite E.
    + rewrite callback_plain by exact E.
      specialize (IH y (pre ++ [Some x])).
      rewrite length_app in IH. cbn [length] in IH.
      rewrite Nat.add_1_r, <- !app_assoc in IH. cbn [app] in IH.
      rewrite IH. simpl. now rewrite E.
Qed.

(** The loop never meets [null]: the parsed command always exists, and it
    is what [merge] leaves after the filter. *)
Lemma parseCommand_merge (cmd : list string) :
  parseCommand cmd = Some (filterTruthy (merge cmd)).
Proof.
  unfold parseCommand. destruct cmd as [|x rest]; [reflexivity|].
  change (mapFrom (length (x :: rest)) 0 (Some <$> x :: rest))
    with (mapFrom (S (length rest)) (length (@nil (option string)))
            ([] ++ Some x :: (Some <$> rest))).
  now rewrite mapFrom_mergeFrom.
Qed.

Lemma filterTruthy_app (a b : jsarray) :
  filterTruthy (a ++ b) = filterTruthy a ++ filterTruthy b.
Proof. unfold filterTruthy. apply omap_app. Qed.

(** A fragment with the marker in front of another one: the scan goes on
    as if the two were one fragment. *)
Lemma mergeFrom_marker (a b : string) (post : list string) :
  filterTruthy (mergeFrom (a +:+ "\") (b :: post))
  = filterTruthy (mergeFrom (a +:+ b) post).
Proof.
  simpl. rewrite endsWithBackslash_app, replaceTrailingBackslash_app.
  reflexivity.
Qed.

End CommandFacts.

Section CommandClaims.
Import Str Command.

Lemma mergeFrom_plain (x : string) (rest : list string) :
  endsWithBackslash x = false -> mergeFrom x rest = Some x :: merge rest.
Proof. intros H. destruct rest; simpl; now rewrite H. Qed.

(** A prefix without markers is left alone by the scan. *)
Lemma merge_plain_app (pre rest : list string) :
  noMarker pre = true -> merge (pre ++ rest) = (Some <$> pre) ++ merge rest.
Proof.
  induction pre as [|p pre IH]; intros H; [reflexivity|].
  simpl in H. apply andb_true_iff in H as [Hp Hpre].
  apply negb_true_iff in Hp.
  change (merge ((p :: pre) ++ rest)) with (mergeFrom p (pre ++ rest)).
  rewrite mergeFrom_plain by exact Hp. rewrite IH by exact Hpre.
  reflexivity.
Qed.

Lemma filterTruthy_Some (cmd : list string) :
  filterTruthy (Some <$> cmd) = List.filter truthy cmd.
Proof.
  induction cmd as [|x cmd IH]; [reflexivity|].
  simpl. destruct (truthy x); simpl; now rewrite <- IH.
Qed.

Lemma filter_noEmpty (cmd : list string) :
  noEmpty cmd = true -> List.filter truthy cmd = cmd.
Proof.
  induction cmd as [|x cmd IH]; intros H; [reflexivity|].
  simpl in *. apply andb_true_iff in H as [Hx Hcmd].
  rewrite Hx. now rewrite IH.
Qed.

Lemma parseCommand_noMarker (cmd : list string) :
  noMarker cmd = true -> parseCommand cmd = Some (List.filter truthy cmd).
Proof.
  intros H. rewrite parseCommand_merge.
  rewrite <- (app_nil_r cmd) at 1.
  rewrite merge_plain_app by exact H. simpl. rewrite app_nil_r.
  now rewrite filterTruthy_Some.
Qed.

Lemma parseCommand_plain (cmd : list string) :
  plain cmd = true -> parseCommand cmd = Some cmd.
Proof.
  intros H. apply andb_true_iff in H as [H1 H2].
  rewrite parseCommand_noMarker by exact H1.
  now rewrite filter_noEmpty.
Qed.

Lemma noMarker_app (a b : list string) :
  noMarker (a ++ b) = noMarker a && noMarker b.
Proof. apply forallb_app. Qed.

Lemma noEmpty_app (a b : list string) :
  noEmpty (a ++ b) = noEmpty a && noEmpty b.
Proof. apply forallb_app. Qed.

Lemma plain_app (a b : list string) :
  plain a = true -> plain b = true -> plain (a ++ b) = true.
Proof.
  unfold plain. rewrite noMarker_app, noEmpty_app.
  rewrite !andb_true_iff. tauto.
Qed.

Lemma filterTruthy_cons (v : option string) (arr : jsarray) :
  filterTruthy (v :: arr) = filterTruthy [v] ++ filterTruthy arr.
Proof. apply (filterTruthy_app [v] arr). Qed.

Lemma mergeFrom_cons (x y : string) (rest : list string) :
  mergeFrom x (y :: rest)
  = if endsWithBackslash x
    then None :: mergeFrom (replaceTrailingBackslash x +:+ y) rest
    else Some x :: mergeFrom y rest.
Proof. reflexivity. Qed.

(** The merge of a marked fragment into its successor, wherever the pair
    stands after the element [x] under the cursor. *)
Lemma mergeFrom_marker_after (pre : list string) :
  forall (x a b : string) (post : list string),
    filterTruthy (mergeFrom x (pre ++ (a +:+ "\") :: b :: post))
    = filterTruthy (mergeFrom x (pre ++ (a +:+ b) :: post)).
Proof.
  induction pre as [|p pre IH]; intros x a b post.
  - cbn [app]. rewrite (mergeFrom_cons x (a +:+ "\")).
    rewrite (mergeFrom_cons x (a +:+ b)).
    destruct (endsWithBackslash x) eqn:E.
    + rewrite <- !app_assoc_str.
      rewrite filterTruthy_cons, mergeFrom_marker.
      now rewrite <- filterTruthy_cons.
    + rewrite filterTruthy_cons, mergeFrom_marker.
      now rewrite <- filterTruthy_cons.
  - change ((p :: pre) ++ ?l) with (p :: (pre ++ l)).
    rewrite !(mergeFrom_cons x p).
    destruct (endsWithBackslash x) eqn:E.
    + rewrite filterTruthy_cons, IH. now rewrite <- filterTruthy_cons.
    + rewrite filterTruthy_cons, IH. now rewrite <- filterTruthy_cons.
Qed.

Lemma parseCommand_marker (pre : list string) (a b : string)
    (post : list string) :
  parseCommand (pre ++ (a +:+ "\") :: b :: post)
  = parseCommand (pre ++ (a +:+ b) :: post).
Proof.
  rewrite !parseCommand_merge. f_equal.
  destruct pre as [|p pre].
  - apply mergeFrom_marker.
  - apply mergeFrom_marker_after.
Qed.

End CommandClaims.

Section CommandTheorems.
Import Str Command.

(** The element under the cursor is the fragment [x] behind the carry [c]:
    every slot from it on ends up [null] or with its own fragment. *)
Lemma held_stripped (c x : string) :
  endsWithBackslash (c +:+ x) = true ->
  held x (Some (replaceTrailingBackslash (c +:+ x))).
Proof.
  intros E. destruct x as [|a x].
  - right; left. exists (replaceTrailingBackslash (c +:+ EmptyString)).
    now rewrite !app_empty_r.
  - rewrite endsWithBackslash_app_r in E.
    rewrite replaceTrailingBackslash_app_r.
    right; right. exists c, (replaceTrailingBackslash (String a x)).
    split; [now apply endsWithBackslash_strip|reflexivity].
Qed.

Lemma mergeFrom_held (rest : list string) :
  forall c x, Forall2 held (x :: rest) (mergeFrom (c +:+ x) rest).
Proof.
  induction rest as [|y rest IH]; intros c x.
  - cbn [mergeFrom]. destruct (endsWithBackslash (c +:+ x)) eqn:E.
    + constructor; [now apply held_stripped|constructor].
    + constructor; [|constructor]. right; left. now exists c.
  - rewrite mergeFrom_cons. destruct (endsWithBackslash (c +:+ x)) eqn:E.
    + constructor; [now left|]. apply IH.
    + constructor; [right; left; now exists c|]. apply (IH EmptyString y).
Qed.

Lemma merge_held (cmd : list string) : Forall2 held cmd (merge cmd).
Proof.
  destruct cmd as [|x rest]; [constructor|].
  apply (mergeFrom_held rest EmptyString x).
Qed.

(** The last fragment with a marker, seen from the element [x] under the
    cursor: its slot ends the array, holds a string, and that string is
    the fragment without its marker behind whatever was merged into it. *)
Lemma mergeFrom_last (pre : list string) :
  forall (x a : string),
  exists (head : jsarray) (c : string),
    mergeFrom x (pre ++ [a +:+ "\"]) = head ++ [Some (c +:+ a)]
    /\ length head = S (length pre).
Proof.
  induction pre as [|p pre IH]; intros x a.
  - cbn [app]. rewrite mergeFrom_cons.
    destruct (endsWithBackslash x) eqn:E.
    + exists [None], (replaceTrailingBackslash x). split; [|reflexivity].
      cbn [mergeFrom]. rewrite <- app_assoc_str.
      now rewrite endsWithBackslash_app, replaceTrailingBackslash_app.
    + exists [Some x], EmptyString. split; [|reflexivity].
      cbn [mergeFrom].
      now rewrite endsWithBackslash_app, replaceTrailingBackslash_app.
  - change ((p :: pre) ++ ?l) with (p :: (pre ++ l)).
    rewrite mergeFrom_cons.
    destruct (endsWithBackslash x) eqn:E.
    + destruct (IH (replaceTrailingBackslash x +:+ p) a)
        as (head & c & Hm & Hl).
      exists (None :: head), c. rewrite Hm. simpl. now rewrite Hl.
    + destruct (IH p a) as (head & c & Hm & Hl).
      exists (Some x :: head), c. rewrite Hm. simpl. now rewrite Hl.
Qed.

Lemma merge_last (pre : list string) (a : string) :
  exists (head : jsarray) (c : string),
    merge (pre ++ [a +:+ "\"]) = head ++ [Some (c +:+ a)]
    /\ length head = length pre.
Proof.
  destruct pre as [|p pre].
  - exists [], EmptyString. split; [|reflexivity].
    simpl. now rewrite endsWithBackslash_app, replaceTrailingBackslash_app.
  - apply (mergeFrom_last pre p a).
Qed.

(** The slot of a fragment with a marker and a successor is [null]. *)
Lemma mergeFrom_marker_slot (pre : list string) :
  forall (x a b : string) (post : list string),
    mergeFrom x (pre ++ (a +:+ "\") :: b :: post) !! S (length pre)
    = Some None.
Proof.
  induction pre as [|p pre IH]; intros x a b post.
  - cbn [app length]. rewrite mergeFrom_cons.
    destruct (endsWithBackslash x).
    + rewrite <- app_assoc_str, mergeFrom_cons, endsWithBackslash_app.
      reflexivity.
    + rewrite mergeFrom_cons, endsWithBackslash_app. reflexivity.
  - change ((p :: pre) ++ ?l) with (p :: (pre ++ l)).
    rewrite mergeFrom_cons. destruct (endsWithBackslash x); apply IH.
Qed.

Lemma merge_marker_slot (pre : list string) (a b : string)
    (post : list string) :
  merge (pre ++ (a +:+ "\") :: b :: post) !! length pre = Some None.
Proof.
  destruct pre as [|p pre].
  - cbn [app merge length]. rewrite mergeFrom_cons, endsWithBackslash_app.
    reflexivity.
  - apply (mergeFrom_marker_slot pre p).
Qed.

Lemma mapFrom_merge (cmd : list string) :
  mapFrom (length cmd) 0 (Some <$> cmd) = Some (merge cmd).
Proof.
  destruct cmd as [|x rest]; [reflexivity|].
  apply (mapFrom_mergeFrom rest x []).
Qed.

(** C3 (amended): for every sequence of command fragments in which no
    fragment ends with the continuation marker, the parsed command is the
    input sequence without its empty fragments; it is the input sequence
    unchanged when no fragment is empty. *)
Theorem C3_marker_free_command (cmd : list string) :
  noMarker cmd = true ->
  parseCommand cmd = Some (List.filter truthy cmd)
  /\ (noEmpty cmd = true -> parseCommand cmd = Some cmd).
Proof.
  intros H. split.
  - now apply parseCommand_noMarker.
  - intros H'. apply parseCommand_plain. unfold plain. now rewrite H, H'.
Qed.

Lemma C3_marker_free_command_witness :
  noMarker ["echo"; "hello"] = true
  /\ parseCommand ["echo"; "hello"] = Some ["echo"; "hello"].
Proof.
  split; [reflexivity|].
  exact (proj2 (C3_marker_free_command ["echo"; "hello"] eq_refl) eq_refl).
Defined.

(** C3, as stated, fails: of the three fragments [a], the empty string and
    [b] none ends with the marker, and the parsed command is [a], [b]:
    the empty fragment is gone. *)
Lemma C3_identity_counterexample :
  noMarker ["a"; EmptyString; "b"] = true
  /\ parseCommand ["a"; EmptyString; "b"] = Some ["a"; "b"]
  /\ parseCommand ["a"; EmptyString; "b"] <> Some ["a"; EmptyString; "b"].
Proof. split; [reflexivity|]. split; [reflexivity | discriminate]. Qed.

(** C4: a fragment that ends with the continuation marker and has a
    successor is merged into that successor, marker removed, nothing put
    in between, and its own slot is dropped: the parsed command is that
    of the sequence where the pair is replaced, in place, by its
    concatenation.  The order is kept: the loop leaves every slot [null]
    or with its own fragment behind what was merged into it, and the
    command is the slots that the filter keeps, in their order; when the
    fragments around the pair and the merged fragment have no marker and
    are not empty, the command is they, with the merged fragment where the
    pair was. *)
Theorem C4_marker_merges_into_next (pre : list string) (a b : string)
    (post : list string) :
  parseCommand (pre ++ (a +:+ "\") :: b :: post)
  = parseCommand (pre ++ (a +:+ b) :: post)
  /\ (exists arr : jsarray,
         mapFrom (length (pre ++ (a +:+ "\") :: b :: post)) 0
                 (Some <$> pre ++ (a +:+ "\") :: b :: post)
         = Some arr
         /\ Forall2 held (pre ++ (a +:+ "\") :: b :: post) arr
         /\ arr !! length pre = Some None
         /\ parseCommand (pre ++ (a +:+ "\") :: b :: post)
            = Some (filterTruthy arr))
  /\ (plain pre = true -> plain ((a +:+ b) :: post) = true ->
      parseCommand (pre ++ (a +:+ "\") :: b :: post)
      = Some (pre ++ (a +:+ b) :: post)).
Proof.
  split; [apply parseCommand_marker|]. split.
  - exists (merge (pre ++ (a +:+ "\") :: b :: post)).
    rewrite mapFrom_merge, parseCommand_merge.
    repeat split; [apply merge_held|].
    apply merge_marker_slot.
  - intros Hpre Hpost. rewrite parseCommand_marker.
    apply parseCommand_plain. now apply plain_app.
Qed.

Lemma C4_marker_merges_into_next_witness :
  parseCommand ["echo"; "hel\"; "lo"] = Some ["echo"; "hello"].
Proof.
  exact (proj2 (proj2 (C4_marker_merges_into_next ["echo"] "hel" "lo" []))
               eq_refl eq_refl).
Defined.

(** C10: when the last fragment ends with the continuation marker, the
    loop strips the marker and merges nothing: the last slot of the array
    keeps a string, the fragment without its marker (behind what earlier
    fragments merged into it).  The filter keeps it as the last token of
    the command unless it is empty.  After fragments without markers and
    not empty, the command is they and then the stripped fragment, if
    not empty. *)
Theorem C10_marker_on_last_fragment (pre : list string) (a : string) :
  (exists (head : jsarray) (c : string),
      mapFrom (length (pre ++ [a +:+ "\"])) 0 (Some <$> pre ++ [a +:+ "\"])
      = Some (head ++ [Some (c +:+ a)])
      /\ length head = length pre
      /\ parseCommand (pre ++ [a +:+ "\"])
         = Some (filterTruthy head
                 ++ (if truthy (c +:+ a) then [c +:+ a] else [])))
  /\ (plain pre = true ->
      parseCommand (pre ++ [a +:+ "\"])
      = Some (pre ++ (if truthy a then [a] else []))).
Proof.
  split.
  - destruct (merge_last pre a) as (head & c & Hm & Hl).
    exists head, c. rewrite mapFrom_merge, parseCommand_merge, Hm.
    repeat split; [exact Hl|].
    rewrite filterTruthy_app. simpl. now destruct (truthy (c +:+ a)).
  - intros H. apply andb_true_iff in H as [H1 H2].
    rewrite parseCommand_merge, merge_plain_app by exact H1.
    rewrite filterTruthy_app, filterTruthy_Some, filter_noEmpty by exact H2.
    simpl. rewrite endsWithBackslash_app, replaceTrailingBackslash_app.
    simpl. now destruct (truthy a).
Qed.

Lemma C10_marker_on_last_fragment_witness :
  parseCommand ["ls"; "-la\"] = Some ["ls"; "-la"]
  /\ parseCommand ["ls"; "\"] = Some ["ls"].
Proof.
  split.
  - exact (proj2 (C10_marker_on_last_fragment ["ls"] "-la") eq_refl).
  - exact (proj2 (C10_marker_on_last_fragment ["ls"] EmptyString) eq_refl).
Defined.

End CommandTheorems.

(** ** The environment *)

Section EnvironmentFacts.
Import Str Environment.

Lemma app_char_assoc (cur : string) (c : ascii) (rest : string) :
  (cur +:+ String c EmptyString) +:+ rest = cur +:+ String c rest.
Proof. now rewrite app_assoc_str. Qed.

(** Inside the capture group: up to the end when no line terminator is in
    the way, and then one empty piece after the match. *)
Lemma splitFrom_capture (v : string) :
  forall cur : string,
    unbroken v = true ->
    splitFrom InCapture cur v = [cur +:+ v; EmptyString].
Proof.
  induction v as [|c v IH]; intros cur H.
  - simpl. now rewrite app_empty_r.
  - rewrite unbroken_cons in H. apply andb_true_iff in H as [Hc Hv].
    apply negb_true_iff in Hc. simpl. rewrite Hc.
    rewrite IH by exact Hv. now rewrite app_char_assoc.
Qed.

(** Before the first [=]: the piece grows until the [=] is met. *)
Lemma splitFrom_piece (k : string) :
  forall cur v : string,
    noneOf isEq k = true ->
    splitFrom InPiece cur (k +:+ String "="%char v)
    = (cur +:+ k) :: splitFrom InCapture EmptyString v.
Proof.
  induction k as [|c k IH]; intros cur v H.
  - simpl. now rewrite app_empty_r.
  - simpl in H. apply andb_true_iff in H as [Hc Hk].
    apply negb_true_iff in Hc. simpl. rewrite Hc.
    rewrite IH by exact Hk. now rewrite app_char_assoc.
Qed.

Lemma parseEntry_first_eq (k v : string) :
  noneOf isEq k = true ->
  unbroken v = true ->
  parseEntry (k +:+ "=" +:+ v) = {| name := Some k; value := Some v |}.
Proof.
  intros Hk Hv. unfold parseEntry, split.
  change ("=" +:+ v) with (String "="%char v).
  rewrite splitFrom_piece by exact Hk.
  rewrite splitFrom_capture by exact Hv.
  reflexivity.
Qed.

(** C5 (amended): an environment fragment is split at its first [=] only:
    when [k] has no [=] and [v] has no line terminator (LF, CR, U+2028 or
    U+2029), the fragment
    [k=v] gives the name [k] and the value [v], which may be empty or hold
    further [=].  Whatever the other fragments are, equal names included,
    the entry stands at the place of its fragment and no entry is
    removed. *)
Theorem C5_environment_first_eq (env : list string) (n : nat) (k v : string) :
  noneOf isEq k = true ->
  unbroken v = true ->
  env !! n = Some (k +:+ "=" +:+ v) ->
  parseEnvironment env !! n = Some {| name := Some k; value := Some v |}
  /\ length (parseEnvironment env) = length env.
Proof.
  intros Hk Hv Hn. unfold parseEnvironment. split.
  - rewrite list_lookup_fmap, Hn.
    change (Some (parseEntry (k +:+ "=" +:+ v))
            = Some {| name := Some k; value := Some v |}).
    now rewrite parseEntry_first_eq.
  - apply length_fmap.
Qed.

Lemma C5_environment_first_eq_witness :
  parseEnvironment ["KEY=a=b"; "KEY="] !! 0%nat
  = Some {| name := Some "KEY"; value := Some "a=b" |}
  /\ parseEnvironment ["KEY=a=b"; "KEY="] !! 1%nat
     = Some {| name := Some "KEY"; value := Some EmptyString |}.
Proof.
  split.
  - exact (proj1 (C5_environment_first_eq ["KEY=a=b"; "KEY="] 0 "KEY" "a=b"
                    eq_refl eq_refl eq_refl)).
  - exact (proj1 (C5_environment_first_eq ["KEY=a=b"; "KEY="] 1 "KEY" EmptyString
                    eq_refl eq_refl eq_refl)).
Defined.

(** C5, as stated, fails: the fragment [K=a<CR>b] has the value [a<CR>b]
    after its first [=], and the value of the entry is [a]; the rest makes
    a third part, which the entry does not read. *)
Lemma C5_value_counterexample :
  split ("K=a" +:+ Sample.cr +:+ "b") = ["K"; "a"; Sample.cr +:+ "b"]
  /\ parseEntry ("K=a" +:+ Sample.cr +:+ "b")
     = {| name := Some "K"; value := Some "a" |}
  /\ value (parseEntry ("K=a" +:+ Sample.cr +:+ "b"))
     <> Some ("a" +:+ Sample.cr +:+ "b").
Proof. split; [reflexivity|]. split; [reflexivity | discriminate]. Qed.

(** The same at the line separator U+2028, which is three bytes of the
    fragment. *)
Example parseEntry_line_separator :
  parseEntry ("K=a" +:+ lineSeparator +:+ "b")
  = {| name := Some "K"; value := Some "a" |}.
Proof. reflexivity. Qed.

(** A fragment without [=] has a name and no value. *)
Example parseEntry_no_eq :
  parseEntry "KEY" = {| name := Some "KEY"; value := None |}.
Proof. reflexivity. Qed.

End EnvironmentFacts.

(** ** Reasoning about runs *)

Section MonadFacts.

Lemma bind_normal {A B} (m : M A) (k : A -> M B) (s s' : State) (a : A) :
  m s = (Normal a, s') -> (m ≫= k) s = k a s'.
Proof. intros H. unfold mbind, M_bind, bind. now rewrite H. Qed.


Lemma tryCatch_normal {A} (m : M A) (h : error -> M A) (s s' : State) (a : A) :
  m s = (Normal a, s') -> tryCatch m h s = (Normal a, s').
Proof. intros H. unfold tryCatch. now rewrite H. Qed.

Lemma tryCatch_thrown {A} (m : M A) (h : error -> M A) (s s' : State)
    (e : error) :
  m s = (Thrown e, s') -> tryCatch m h s = h e s'.
Proof. intros H. unfold tryCatch. now rewrite H. Qed.

Context (P : State -> Prop).

Lemma preserves_ret {A} (a : A) : preserves P (ret a).
Proof. intros s H. exact H. Qed.

Lemma preserves_throw {A} (e : error) : preserves P (@throw A e).
Proof. intros s H. exact H. Qed.

Lemma preserves_getState : preserves P getState.
Proof. intros s H. exact H. Qed.

Lemma preserves_modify (f : State -> State) :
  (forall s, P s -> P (f s)) -> preserves P (modify f).
Proof. intros Hf s H. now apply Hf. Qed.

Lemma preserves_emit (e : event) :
  (forall s, P s -> P (setTrace (trace s ++ [e]) s)) -> preserves P (emit e).
Proof. intros Hf. now apply preserves_modify. Qed.

Lemma preserves_bind {A B} (m : M A) (k : A -> M B) :
  preserves P m -> (forall a, preserves P (k a)) -> preserves P (m ≫= k).
Proof.
  intros Hm Hk s H. unfold mbind, M_bind, bind.
  specialize (Hm s H). destruct (m s) as [[a|e] s']; simpl in *.
  - now apply Hk.
  - exact Hm.
Qed.

Lemma preserves_tryCatch {A} (m : M A) (h : error -> M A) :
  preserves P m -> (forall e, preserves P (h e)) -> preserves P (tryCatch m h).
Proof.
  intros Hm Hh s H. unfold tryCatch.
  specialize (Hm s H). destruct (m s) as [[a|e] s']; simpl in *.
  - exact Hm.
  - now apply Hh.
Qed.

Lemma preserves_defined {A} (v : option A) (what : string) :
  preserves P (defined v what).
Proof. destruct v; [apply preserves_ret | apply preserves_throw]. Qed.

Lemma preserves_settle {A} (r : error + A) : preserves P (settle r).
Proof. destruct r; [apply preserves_throw | apply preserves_ret]. Qed.

Lemma preserves_some {A} (f : A -> M bool) (l : list A) :
  (forall a, preserves P (f a)) -> preserves P (some f l).
Proof.
  intros Hf. induction l as [|a l IH]; simpl.
  - apply preserves_ret.
  - apply preserves_bind; [apply Hf|].
    intros [|]; [apply preserves_ret | exact IH].
Qed.

End MonadFacts.

(** Splits a goal [preserves P m] along the structure of [m]; what is left
    are the steps that change the state. *)
Ltac preserve :=
  repeat first
    [ apply preserves_ret
    | apply preserves_throw
    | apply preserves_getState
    | apply preserves_defined
    | apply preserves_settle
    | apply preserves_bind; [|intro]
    | apply preserves_tryCatch; [|intro]
    | apply preserves_some; intro
    | match goal with
      | |- preserves _ (match ?x with _ => _ end) => destruct x
      end ].

(** Runs the steps of a computation that are not recursive calls. *)
Ltac exec :=
  unfold mbind, M_bind, bind, tryCatch, debug, info, setOutput, setFailed,
    emit, modify, getState, ret, throw, defined, settle in *;
  simpl.

(** ** The log poller *)

Section PollerFacts.
Context (w : World).

(** One call of the poller, whatever the log service answers: the fetch is
    sent, its answer is printed as log lines or as a diagnostic, and the
    call returns. *)
Lemma poller_step (c : GetLogEventsCommand) (s : State) :
  poller w c s
  = (Normal tt,
     setTrace (trace s ++ [SendGetLogEvents c;
                           answerEvent (logs_getLogEvents w (fetches s) c)])
              (setFetches (S (fetches s)) s)).
Proof.
  destruct c as [g n t]. destruct s as [tr f l o].
  unfold poller, pollLogEvents, cloudwatchSend. exec.
  destruct (logs_getLogEvents w f _) as [e|events]; simpl;
    unfold setTrace, setFetches; simpl; now rewrite <- app_assoc.
Qed.

Lemma pollTimes_normal (n : nat) (c : GetLogEventsCommand) :
  forall s, (pollTimes w n c s).1 = Normal tt.
Proof.
  induction n as [|n IH]; intros s; [reflexivity|].
  cbn [pollTimes]. erewrite bind_normal by apply poller_step. apply IH.
Qed.




End PollerFacts.

(** ** Invariants of the phases *)

(** Closes the goals that [preserve] leaves: a step that adds an event or
    sets a variable keeps a property of the observations. *)
Ltac frame :=
  lazymatch goal with
  | |- preserves _ (emit _) => apply preserves_emit
  | |- preserves _ (modify _) => apply preserves_modify
  end;
  intros [? ? ? ?];
  unfold quietLogs, unstarted, unfailed, unsearched, failures, requests,
    printed, waiters, discoveries, setTrace, setFetches,
    setLogFilterStream;
  simpl; rewrite ?omap_app; simpl; rewrite ?app_nil_r;
  intuition (subst; auto).

Section PhaseFacts.
Context (w : World).

Lemma unfailed_monitor (i : Inputs) : preserves unfailed (monitor w i).
Proof.
  unfold monitor, launch, buildOverrides, sendRunTask, awaitTask, waitFor,
    logPhase, describeTaskDefinition, inspect, callMethod, debug, info,
    setOutput.
  preserve; frame.
Qed.

Lemma unstarted_launch (i : Inputs) : preserves unstarted (launch w i).
Proof.
  unfold launch, buildOverrides, sendRunTask, debug, info, setOutput.
  preserve; frame.
Qed.

Lemma quietLogs_main (i : Inputs) : preserves (quietLogs w) (main w i).
Proof.
  unfold main, attempt, handler, reconcile, sendDescribeTasks, monitor,
    launch, buildOverrides, sendRunTask, awaitTask, waitFor, logPhase,
    describeTaskDefinition, inspect, callMethod, debug, info, setOutput,
    setFailed.
  preserve; frame.
Qed.

Lemma emit_step (e : event) (s : State) :
  emit e s = (Normal tt, setTrace (trace s ++ [e]) s).
Proof. reflexivity. Qed.

End PhaseFacts.

(** ** The waits *)

Section WaitFacts.
Context (w : World).

(** The two waits: the diagnostic of line 121 is written, the call of
    line 122 throws, and line 130 is not reached. *)
Lemma awaitTask_step (i : Inputs) (taskArn : string) (s : State) :
  awaitTask i taskArn s
  = (Thrown (TypeError "ecs.waitFor is not a function"),
     setTrace
       (trace s
        ++ [Debug (Text "Waiting for task to be in running state, then to stop.")])
       s).
Proof. reflexivity. Qed.

End WaitFacts.

(** ** The result *)

Section ResultFacts.
Context (w : World).




End ResultFacts.



(** ** The log tailer *)

(** [main] never calls the log service: a run is the same under any log
    service. *)
Lemma run_withLogs
    (logs : nat -> GetLogEventsCommand -> error + list LogEvent)
    (w : World) (i : Inputs) :
  run (withLogs logs w) i = run w i.
Proof. reflexivity. Qed.

(** C9: a fetch of log events that fails is not fatal.  The poller prints
    a diagnostic with the error and returns normally; what follows the
    call runs, from the state the call leaves; any number of further polls
    returns normally too; and a run of [main] is the same whatever the
    log service does, so that no failure of it can end the run. *)
Theorem C9_failed_fetch_is_not_fatal (w : World) (c : GetLogEventsCommand)
    (s : State) (e : error) :
  logs_getLogEvents w (fetches s) c = inl e ->
  poller w c s
  = (Normal tt,
     setTrace (trace s ++ [SendGetLogEvents c;
                           ConsoleError "Error fetching log events" e])
              (setFetches (S (fetches s)) s))
  /\ (forall (A : Type) (k : M A),
         (poller w c ≫= (fun _ => k)) s = k (poller w c s).2)
  /\ (forall n, (pollTimes w n c s).1 = Normal tt)
  /\ (forall logs i, run (withLogs logs w) i = run w i).
Proof.
  intros H. repeat split.
  - rewrite poller_step, H. reflexivity.
  - intros A k. erewrite bind_normal by apply poller_step.
    now rewrite poller_step.
  - intros n. apply pollTimes_normal.
Qed.

Lemma C9_failed_fetch_is_not_fatal_witness :
  poller Sample.downWorld Sample.cursor initial
  = (Normal tt,
     setTrace [SendGetLogEvents Sample.cursor;
               ConsoleError "Error fetching log events"
                            (Rejected "ThrottlingException")]
              (setFetches 1 initial)).
Proof.
  exact (proj1 (C9_failed_fetch_is_not_fatal Sample.downWorld Sample.cursor
                  initial (Rejected "ThrottlingException") eq_refl)).
Defined.

(** A run of [main] leaves the log service alone: no fetch is sent and no
    log line printed, the accumulated output is empty, and the stream is
    unset or as line 163 sets it. *)
Lemma run_sends_no_fetch (w : World) (i : Inputs) :
  quietLogs w (run w i).2.
Proof. apply (quietLogs_main w i initial). unfold quietLogs. simpl. tauto. Qed.


(** Two calls of a poller that starts at second 1, on a log stream with
    one line of second 2: both fetches ask from second 1, the line is
    printed twice, and the start time is not the time of the line. *)
Example poller_prints_a_line_twice :
  let s := (pollTimes (Sample.world None None [Sample.line]) 2
                      Sample.cursor initial).2 in
  requests (trace s) = [Sample.cursor; Sample.cursor]
  /\ printed (trace s) = [Sample.line; Sample.line]
  /\ startTime Sample.cursor <> (timestamp Sample.line / 1000)%Z.
Proof. vm_compute. split; [reflexivity|]. split; [reflexivity|discriminate]. Qed.

(** ** The log destination *)

Section DiscoveryFacts.
Context (w : World) (i : Inputs) (taskId : string).


(** A container that passes the tests: the name of its log stream is
    computed and announced, the stream is set up on the two literals, and
    the call of [on] throws. *)
Lemma inspect_selects (c : ContainerDefinition) (lc : LogConfiguration)
    (opts : gmap string string) (s : State) :
  selects i c = true ->
  logConfiguration c = Some lc ->
  options lc = Some opts ->
  inspect w i taskId c s
  = (Thrown (TypeError "logFilterStream.on is not a function"),
     setLogFilterStream (Some (armed w))
       (setTrace (trace s ++ [looking c;
                              found (logStreamNameOf opts (cd_name c) taskId)])
                 s)).
Proof.
  unfold selects, inspect, looking, found, callMethod. intros H Hlc Ho. exec.
  rewrite Hlc in *. apply andb_true_iff in H as [H1 H2].
  apply negb_true_iff in H1. rewrite H1, H2, Ho. simpl.
  destruct s. unfold setLogFilterStream, setTrace, armed. simpl.
  now rewrite <- app_assoc.
Qed.




End DiscoveryFacts.

(** ** The look-up and the waits *)

Section OrderFacts.
Context (w : World).

Lemma unsearched_launch (i : Inputs) : preserves unsearched (launch w i).
Proof.
  unfold launch, buildOverrides, sendRunTask, debug, info, setOutput.
  preserve; frame.
Qed.

Lemma unsearched_awaitTask (i : Inputs) (taskArn : string) :
  preserves unsearched (awaitTask i taskArn).
Proof. unfold awaitTask, waitFor, debug. preserve; frame. Qed.

Lemma handler_unsearched (e : error) : preserves unsearched (handler e).
Proof. unfold handler, setFailed, debug. preserve; frame. Qed.

End OrderFacts.

(** * Further properties *)

(** ** More on the command *)

Section CommandMore.
Import Str Command.

Lemma length_filterTruthy (arr : jsarray) :
  length (filterTruthy arr) <= length arr.
Proof.
  induction arr as [|v arr IH]; [reflexivity|].
  rewrite filterTruthy_cons, length_app.
  assert (H : length (filterTruthy [v]) <= 1).
  { destruct v as [x|]; [|simpl; lia].
    unfold filterTruthy. simpl. destruct (truthy x); simpl; lia. }
  cbn [length]. lia.
Qed.

Lemma noEmpty_filterTruthy (arr : jsarray) :
  noEmpty (filterTruthy arr) = true.
Proof.
  induction arr as [|v arr IH]; [reflexivity|].
  rewrite filterTruthy_cons, noEmpty_app, IH.
  destruct v as [x|]; [|reflexivity].
  simpl. destruct (truthy x) eqn:E; simpl; [now rewrite E|reflexivity].
Qed.

(** X1: the loop of lines 70-82 never meets [null], so the parsed command
    exists for every sequence of fragments; it has no empty token and no
    more tokens than there are fragments. *)
Theorem X1_parsed_command_exists (cmd : list string) :
  exists parsed : list string,
    parseCommand cmd = Some parsed
    /\ length parsed <= length cmd
    /\ noEmpty parsed = true.
Proof.
  exists (filterTruthy (merge cmd)). split; [apply parseCommand_merge|].
  split; [|apply noEmpty_filterTruthy].
  rewrite (Forall2_length _ _ _ (merge_held cmd)).
  apply length_filterTruthy.
Qed.

Lemma endsWithBackslash_marked (c a : string) :
  endsWithBackslash (c +:+ marked a) = true.
Proof.
  unfold marked. rewrite <- app_assoc_str. apply endsWithBackslash_app.
Qed.

Lemma replaceTrailingBackslash_marked (c a : string) :
  replaceTrailingBackslash (c +:+ marked a) = c +:+ a.
Proof.
  unfold marked. rewrite <- app_assoc_str.
  apply replaceTrailingBackslash_app.
Qed.

(** A run of marked fragments behind the carry [c], and then [b]: all of
    them end up in the one slot of [b]. *)
Lemma mergeFrom_chain (parts : list string) :
  forall (c a b : string),
    filterTruthy (mergeFrom (c +:+ marked a) ((marked <$> parts) ++ [b]))
    = token (finish (c +:+ a +:+ concatAll parts +:+ b)).
Proof.
  induction parts as [|p parts IH]; intros c a b.
  - cbn [fmap list_fmap app concatAll foldr].
    rewrite mergeFrom_cons, endsWithBackslash_marked,
      replaceTrailingBackslash_marked.
    rewrite filterTruthy_cons. cbn [filterTruthy omap keep app].
    rewrite app_assoc_str. cbn [String.append].
    unfold finish, token. cbn [mergeFrom].
    destruct (endsWithBackslash (c +:+ a +:+ b)); simpl;
      now destruct (truthy _).
  - cbn [fmap list_fmap app].
    rewrite mergeFrom_cons, endsWithBackslash_marked,
      replaceTrailingBackslash_marked.
    rewrite filterTruthy_cons. cbn [filterTruthy omap keep app].
    change (omap keep ?l) with (filterTruthy l).
    rewrite (IH (c +:+ a) p b).
    cbn [concatAll foldr]. now rewrite !app_assoc_str.
Qed.

(** X2: fragments that all end with the continuation marker, followed by
    one more fragment, make one token: the fragments without their markers
    and the last one, in order and with nothing in between, without the
    marker that may end the whole; no token when that is empty. *)
Theorem X2_continued_lines_make_one_token (parts : list string) (b : string) :
  parseCommand ((marked <$> parts) ++ [b])
  = Some (token (finish (concatAll parts +:+ b))).
Proof.
  rewrite parseCommand_merge. f_equal.
  destruct parts as [|a parts].
  - cbn [fmap list_fmap app merge mergeFrom concatAll foldr String.append].
    unfold finish, token.
    destruct (endsWithBackslash b); simpl; now destruct (truthy _).
  - cbn [fmap list_fmap app merge].
    change (marked a) with (EmptyString +:+ marked a).
    rewrite (mergeFrom_chain parts EmptyString a b).
    cbn [concatAll foldr String.append]. now rewrite app_assoc_str.
Qed.

End CommandMore.

(** ** More on the environment *)

Section EnvironmentMore.
Import Str Environment.

Lemma isEq_true (c : ascii) : isEq c = true -> c = "="%char.
Proof. unfold isEq. apply Ascii.eqb_eq. Qed.

(** A piece: either it has no [=] and is the last part, or it stops at its
    first [=] and the capture group follows. *)
Lemma splitFrom_piece_shape (x : string) :
  forall cur : string,
    (noneOf isEq x = true /\ splitFrom InPiece cur x = [cur +:+ x])
    \/ (exists k v : string,
          x = k +:+ String "="%char v
          /\ noneOf isEq k = true
          /\ splitFrom InPiece cur x
             = (cur +:+ k) :: splitFrom InCapture EmptyString v).
Proof.
  induction x as [|c x IH]; intros cur.
  - left. split; [reflexivity|]. simpl. now rewrite app_empty_r.
  - simpl. destruct (isEq c) eqn:E.
    + right. exists EmptyString, x. apply isEq_true in E. subst c.
      repeat split. now rewrite app_empty_r.
    + destruct (IH (cur +:+ String c EmptyString))
        as [(Hn & Hs)|(k & v & Hx & Hk & Hs)].
      * left. split; [now rewrite Hn|]. now rewrite Hs, app_char_assoc.
      * right. exists (String c k), v. subst x. repeat split.
        -- simpl. now rewrite E, Hk.
        -- now rewrite Hs, app_char_assoc.
Qed.

(** The capture group: it takes the characters up to the first line
    terminator, or all of them. *)
Lemma splitFrom_capture_shape (v : string) :
  forall cur : string,
  exists (v1 rest : string) (tail : list string),
    splitFrom InCapture cur v = (cur +:+ v1) :: tail
    /\ v = v1 +:+ rest
    /\ unbroken v1 = true
    /\ cut rest = true.
Proof.
  induction v as [|c v IH]; intros cur.
  - exists EmptyString, EmptyString, [EmptyString].
    repeat split. simpl. now rewrite app_empty_r.
  - simpl. destruct (terminated (String c v)) eqn:E.
    + exists EmptyString, (String c v),
        (splitFrom InPiece (String c EmptyString) v).
      repeat split; [now rewrite app_empty_r | exact E].
    + destruct (IH (cur +:+ String c EmptyString))
        as (v1 & rest & tail & Hs & Hv & Hn & Hc).
      exists (String c v1), rest, tail. subst v. repeat split.
      * now rewrite Hs, app_char_assoc.
      * rewrite unbroken_cons, Hn, andb_true_r. apply negb_true_iff.
        destruct (terminated (String c v1)) eqn:E1; [|reflexivity].
        apply (terminated_app _ rest) in E1. simpl in E1. congruence.
      * exact Hc.
Qed.

(** X3: an environment fragment without [=] gives an entry whose name is
    the whole fragment and whose value is [undefined]. *)
Theorem X3_fragment_without_eq (x : string) :
  noneOf isEq x = true ->
  parseEntry x = {| name := Some x; value := None |}.
Proof.
  intros H. unfold parseEntry, split.
  destruct (splitFrom_piece_shape x EmptyString)
    as [(_ & Hs)|(k & v & Hx & _ & _)].
  - now rewrite Hs.
  - subst x. rewrite noneOf_app in H. simpl in H.
    now rewrite andb_false_r in H.
Qed.

Lemma X3_fragment_without_eq_witness :
  parseEntry "DEBUG" = {| name := Some "DEBUG"; value := None |}.
Proof. exact (X3_fragment_without_eq "DEBUG" eq_refl). Defined.

(** X4: what an entry holds, for every fragment.  The name is always
    there; it has no [=] and starts the fragment.  The value is
    [undefined] when the name is the whole fragment; otherwise the name, an
    [=] and the value start the fragment, the value has no line terminator
    (LF, CR, U+2028 or U+2029), and what is left of the fragment is empty
    or starts with a line terminator. *)
Theorem X4_entry_shape (x : string) :
  exists k : string,
    name (parseEntry x) = Some k
    /\ noneOf isEq k = true
    /\ ((value (parseEntry x) = None /\ x = k)
        \/ (exists v rest : string,
              value (parseEntry x) = Some v
              /\ unbroken v = true
              /\ x = k +:+ "=" +:+ v +:+ rest
              /\ cut rest = true)).
Proof.
  unfold parseEntry, split.
  destruct (splitFrom_piece_shape x EmptyString)
    as [(Hn & Hs)|(k & v & Hx & Hk & Hs)].
  - exists x. rewrite Hs. repeat split; [exact Hn|]. left. now split.
  - exists k. rewrite Hs. repeat split; [exact Hk|]. right.
    destruct (splitFrom_capture_shape v EmptyString)
      as (v1 & rest & tail & Hc & Hv & Hl & Hr).
    exists v1, rest. rewrite Hc. repeat split; [exact Hl| |exact Hr].
    subst x v. reflexivity.
Qed.

End EnvironmentMore.

(** ** The task id (line 115) *)

Section TaskIdFacts.
Import Str.

Lemma splitChar_nonempty (sep : ascii) (x : string) : splitChar sep x <> [].
Proof.
  destruct x as [|c x]; [discriminate|].
  simpl. destruct (Ascii.eqb c sep); [discriminate|].
  destruct (splitChar sep x); discriminate.
Qed.

(** Splitting distributes over a separator. *)
Lemma splitChar_app (sep : ascii) (p q : string) :
  splitChar sep (p +:+ String sep q) = splitChar sep p ++ splitChar sep q.
Proof.
  induction p as [|c p IH].
  - simpl. now rewrite Ascii.eqb_refl.
  - simpl. destruct (Ascii.eqb c sep); rewrite IH; [reflexivity|].
    pose proof (splitChar_nonempty sep p) as H.
    destruct (splitChar sep p); [contradiction|reflexivity].
Qed.

Lemma splitChar_plain (q : string) :
  noneOf isSlash q = true -> splitChar "/"%char q = [q].
Proof.
  induction q as [|c q IH]; intros H; [reflexivity|].
  simpl in H. apply andb_true_iff in H as [Hc Hq].
  apply negb_true_iff in Hc. unfold isSlash in Hc.
  simpl. rewrite Hc, IH by exact Hq. reflexivity.
Qed.

Lemma splitChar_pieces (x : string) :
  Forall (fun piece => noneOf isSlash piece = true) (splitChar "/"%char x).
Proof.
  induction x as [|c x IH]; [repeat constructor|].
  simpl. destruct (Ascii.eqb c "/") eqn:E.
  - constructor; [reflexivity|exact IH].
  - destruct (splitChar "/"%char x) as [|piece pieces].
    { constructor; [|constructor]. simpl. unfold isSlash. now rewrite E. }
    inversion IH as [|? ? Hp Hps]; subst.
    constructor; [|exact Hps]. simpl. unfold isSlash at 1. now rewrite E, Hp.
Qed.

(** X5: the task id is the part of the ARN behind its last [/]: it has no
    [/], it is [id] for an ARN that ends with [/id] when [id] has no [/],
    and it is the whole ARN when the ARN has no [/]. *)
Theorem X5_task_id_is_last_segment (taskArn p id : string) :
  noneOf isSlash (taskIdOf taskArn) = true
  /\ (noneOf isSlash id = true ->
      taskIdOf (p +:+ "/" +:+ id) = id /\ taskIdOf id = id).
Proof.
  unfold taskIdOf. split.
  - pose proof (splitChar_pieces taskArn) as H.
    destruct (last (splitChar "/"%char taskArn)) as [piece|] eqn:E;
      [|reflexivity].
    apply last_Some in E as [l' E]. rewrite E in H.
    apply Forall_app in H as [_ H]. now inversion H.
  - intros H. split.
    + change ("/" +:+ id) with (String "/"%char id).
      rewrite splitChar_app, (splitChar_plain id H).
      now rewrite last_snoc.
    + now rewrite splitChar_plain.
Qed.

Lemma X5_task_id_is_last_segment_witness :
  taskIdOf "arn:aws:ecs:eu-west-1:123456789012:task/demo/abc123" = "abc123".
Proof.
  exact (proj1 (proj2 (X5_task_id_is_last_segment EmptyString
                         "arn:aws:ecs:eu-west-1:123456789012:task/demo"
                         "abc123") eq_refl)).
Defined.

End TaskIdFacts.

(** ** The phases of a run *)

(** As [frame], for the further notions. *)
Ltac frame2 :=
  lazymatch goal with
  | |- preserves _ (emit _) => apply preserves_emit
  | |- preserves _ (modify _) => apply preserves_modify
  end;
  intros [? ? ? ?];
  unfold launched, exposed, undescribed, waited, unset, unfailed, unsearched,
    launches, outputs, describes, waiters, failures, discoveries, setTrace,
    setFetches, setLogFilterStream;
  simpl; rewrite ?omap_app; simpl; rewrite ?app_nil_r;
  intuition (subst; auto; discriminate).

Section PhaseMore.
Context (w : World).

(** What follows a [throw] does not run. *)
Lemma preserves_throw_bind (P : State -> Prop) {A B} (e : error)
    (k : A -> M B) :
  preserves P (throw e ≫= k).
Proof. intros s H. exact H. Qed.

Lemma tryCatch_bind {A B} (m : M A) (k : A -> M B) (h : error -> M B)
    (s : State) :
  tryCatch (m ≫= k) h s
  = match m s with
    | (Normal a, s') => tryCatch (k a) h s'
    | (Thrown e, s') => h e s'
    end.
Proof.
  unfold tryCatch, mbind, M_bind, bind. now destruct (m s) as [[a|e] s'].
Qed.

Lemma bind_eq {A B} (m : M A) (k : A -> M B) (s : State) :
  (m ≫= k) s
  = match m s with
    | (Normal a, s') => k a s'
    | (Thrown e, s') => (Thrown e, s')
    end.
Proof. reflexivity. Qed.

Lemma handler_step (e : error) (s : State) :
  handler e s
  = (Normal tt,
     setTrace (trace s ++ [SetFailed (ErrorMessage e); Debug (Stack e)]) s).
Proof.
  unfold handler. exec. destruct s. unfold setTrace. simpl.
  now rewrite <- app_assoc.
Qed.

(** How a run goes on after the launch. *)
Lemma run_launch_failed (i : Inputs) (e : error) (s1 : State) :
  launch w i initial = (Thrown e, s1) -> run w i = handler e s1.
Proof.
  intros E. unfold run, main, attempt, monitor.
  now rewrite tryCatch_bind, bind_eq, E.
Qed.

Lemma run_wait_failed (i : Inputs) (task : string * string) (e : error)
    (s1 s2 : State) :
  launch w i initial = (Normal task, s1) ->
  awaitTask i task.1 s1 = (Thrown e, s2) ->
  run w i = handler e s2.
Proof.
  intros E1 E2. unfold run, main, attempt, monitor.
  now rewrite tryCatch_bind, bind_eq, E1, bind_eq, E2.
Qed.

(** A launch that succeeds is followed by the diagnostic of line 121 and
    by the handler, run on the TypeError of line 122. *)
Lemma run_launched (i : Inputs) (task : string * string) (s1 : State) :
  launch w i initial = (Normal task, s1) ->
  run w i
  = handler (TypeError "ecs.waitFor is not a function")
      (setTrace
         (trace s1
          ++ [Debug (Text "Waiting for task to be in running state, then to stop.")])
         s1).
Proof. intros E. exact (run_wait_failed i task _ s1 _ E eq_refl). Qed.

End PhaseMore.

(** ** The launch *)

(** As [preserve], with what follows a [throw] left out. *)
Ltac preserve2 :=
  repeat first
    [ apply preserves_throw_bind
    | apply preserves_ret
    | apply preserves_throw
    | apply preserves_getState
    | apply preserves_defined
    | apply preserves_settle
    | apply preserves_bind; [|intro]
    | apply preserves_tryCatch; [|intro]
    | apply preserves_some; intro
    | match goal with
      | |- preserves _ (match ?x with _ => _ end) => destruct x
      end ].

Section LaunchFacts.
Context (w : World).

(** An observation that reads no diagnostic sees nothing in a trace of
    diagnostics. *)
Lemma omap_diagnostics {A} (f : event -> option A) (tr : list event) :
  (forall d, f (Debug d) = None) ->
  forallb isDebug tr = true ->
  omap f tr = [].
Proof.
  intros Hf. induction tr as [|e tr IH]; [reflexivity|].
  simpl. intros H. apply andb_true_iff in H as [He Htr].
  destruct e; try discriminate. simpl. rewrite Hf. now apply IH.
Qed.

(** Lines 59-105 never throw; they give [overridesOf] and write
    diagnostics only. *)
Lemma buildOverrides_value (i : Inputs) (s : State) :
  exists tr : list event,
    forallb isDebug tr = true
    /\ buildOverrides i s = (Normal (overridesOf i), setTrace (trace s ++ tr) s).
Proof.
  unfold buildOverrides, overridesOf.
  destruct (Str.truthy (overrideContainer i)).
  2:{ exists []. split; [reflexivity|]. destruct s. unfold setTrace. simpl.
      now rewrite app_nil_r. }
  rewrite !parseCommand_merge.
  destruct (overrideContainerCommand i) as [|x cmd];
    destruct (overrideContainerEnvironment i) as [|y env].
  - exists []. split; [reflexivity|]. destruct s. unfold setTrace. exec.
    now rewrite app_nil_r.
  - eexists [_]. split; [|destruct s; unfold setTrace; exec; reflexivity].
    reflexivity.
  - eexists [_; _; _].
    split; [|destruct s; unfold setTrace; exec;
             now rewrite <- !app_assoc].
    reflexivity.
  - eexists [_; _; _; _].
    split; [|destruct s; unfold setTrace; exec;
             now rewrite <- !app_assoc].
    reflexivity.
Qed.

(** The launch: the request of [requestOf] is sent once, and then the
    answer decides. *)
Lemma launch_cases (i : Inputs) :
  exists tr : list event,
    forallb isDebug tr = true
    /\ launch w i initial
       = match ecs_runTask w (requestOf i) with
         | inl e =>
             (Thrown e, setTrace (tr ++ [SendRunTask (requestOf i)]) initial)
         | inr resp =>
             match rt_tasks resp with
             | [] =>
                 (Thrown (TypeError "task.tasks[0].taskArn"),
                  setTrace (tr ++ [SendRunTask (requestOf i)]) initial)
             | t :: _ =>
                 match taskArn t with
                 | None =>
                     (Thrown (TypeError "taskArn.split"),
                      setTrace (tr ++ [SendRunTask (requestOf i)]) initial)
                 | Some arn =>
                     (Normal (arn, taskIdOf arn),
                      setTrace
                        (tr ++ [SendRunTask (requestOf i);
                                SetOutput "task-arn" arn;
                                SetOutput "task-id" (taskIdOf arn);
                                Info ("Starting Task with ARN: " +:+ arn
                                      +:+ newline)])
                        initial)
                 end
             end
         end.
Proof.
  destruct (buildOverrides_value i initial) as (tr & Hd & Hb).
  exists (tr ++ [Debug (RequestParams (requestOf i));
                 Debug (Text "Starting task.")]).
  split.
  { rewrite forallb_app, Hd. reflexivity. }
  unfold launch. rewrite bind_eq, Hb. unfold sendRunTask.
  change {| rp_count := 1; rp_cluster := cluster i;
            rp_taskDefinition := taskDefinitionRef i;
            rp_launchType := "FARGATE"; rp_subnets := subnets i;
            rp_assignPublicIp := assignPublicIp i;
            rp_securityGroups := securityGroups i;
            rp_containerOverrides := overridesOf i |}
    with (requestOf i).
  generalize (requestOf i). intros p. exec.
  destruct (ecs_runTask w p) as [e|resp]; simpl.
  - unfold setTrace. simpl. now rewrite <- !app_assoc.
  - destruct (rt_tasks resp) as [|t rest]; simpl.
    + unfold setTrace. simpl. now rewrite <- !app_assoc.
    + destruct (taskArn t) as [arn|]; simpl;
        unfold setTrace; simpl; now rewrite <- !app_assoc.
Qed.

End LaunchFacts.

Section LaunchTheorems.
Context (w : World).

(** A property that the waits and the handler keep holds at the end of a
    run when it holds at the end of the launch. *)
Lemma run_keeps (P : State -> Prop) (i : Inputs) :
  (forall e, preserves P (handler e)) ->
  (forall taskArn, preserves P (awaitTask i taskArn)) ->
  P (launch w i initial).2 ->
  P (run w i).2.
Proof.
  intros Hh Ha Hl.
  destruct (launch w i initial) as [[task|e] s1] eqn:E1.
  - specialize (Ha task.1 s1 Hl).
    rewrite (run_wait_failed w i task _ s1 _ E1 eq_refl). now apply Hh.
  - rewrite (run_launch_failed w i e s1 E1). now apply Hh.
Qed.

Lemma launched_later (l : list TaskRequestParams) (i : Inputs) :
  (forall e, preserves (launched l) (handler e))
  /\ (forall taskArn, preserves (launched l) (awaitTask i taskArn)).
Proof.
  split; intros.
  - unfold handler, setFailed, debug. preserve; frame2.
  - unfold awaitTask, waitFor, debug. preserve; frame2.
Qed.

Lemma exposed_later (o : list (string * string)) (i : Inputs) :
  (forall e, preserves (exposed o) (handler e))
  /\ (forall taskArn, preserves (exposed o) (awaitTask i taskArn)).
Proof.
  split; intros.
  - unfold handler, setFailed, debug. preserve; frame2.
  - unfold awaitTask, waitFor, debug. preserve; frame2.
Qed.

(** The requests and the outputs at the end of the launch. *)
Lemma launch_shows (i : Inputs) :
  launches (trace (launch w i initial).2) = [requestOf i]
  /\ outputs (trace (launch w i initial).2)
     = match launchedArn w i with
       | Some arn => [("task-arn", arn); ("task-id", taskIdOf arn)]
       | None => []
       end.
Proof.
  destruct (launch_cases w i) as (tr & Hd & Hl). rewrite Hl.
  unfold launchedArn, launches, outputs.
  destruct (ecs_runTask w (requestOf i)) as [e|resp];
    [|destruct (rt_tasks resp) as [|t rest];
      [|destruct (taskArn t) as [arn|]]];
    cbn [snd trace setTrace]; rewrite !omap_app;
    rewrite !(omap_diagnostics _ tr) by (exact Hd || reflexivity);
    split; reflexivity.
Qed.

(** X6: once the inputs are read, every run sends exactly one request to
    run a task, whatever happens afterwards: building the request never
    fails and nothing is retried.  The request asks for one task of launch type FARGATE, with
    the cluster, the task definition, the subnets, the security groups and
    the public IP setting of the inputs. *)
Theorem X6_one_request_per_run (i : Inputs) :
  exists p : TaskRequestParams,
    launches (trace (run w i).2) = [p]
    /\ rp_count p = 1%Z
    /\ rp_launchType p = "FARGATE"
    /\ rp_cluster p = cluster i
    /\ rp_taskDefinition p = taskDefinitionRef i
    /\ rp_subnets p = subnets i
    /\ rp_securityGroups p = securityGroups i
    /\ rp_assignPublicIp p = assignPublicIp i.
Proof.
  exists (requestOf i). split; [|now repeat split].
  destruct (launched_later [requestOf i] i) as (Hh & Ha).
  apply (run_keeps (launched [requestOf i]) i Hh Ha).
  apply launch_shows.
Qed.

(** X7: the overrides of the request of a run.  Without an override
    container there are none, and the override command and environment of
    the inputs are not used.  With one there is one entry, for that
    container; it has a command exactly when the inputs have command
    fragments, the parsed command, and an environment exactly when the
    inputs have environment fragments, one entry for each fragment. *)
Theorem X7_overrides_of_the_request (i : Inputs) :
  exists p : TaskRequestParams,
    launches (trace (run w i).2) = [p]
    /\ (overrideContainer i = EmptyString -> rp_containerOverrides p = None)
    /\ (overrideContainer i <> EmptyString ->
        exists o : ContainerOverride,
          rp_containerOverrides p = Some [o]
          /\ co_name o = overrideContainer i
          /\ (overrideContainerCommand i = [] -> co_command o = None)
          /\ (overrideContainerCommand i <> [] ->
              co_command o
              = Command.parseCommand (overrideContainerCommand i)
              /\ co_command o <> None)
          /\ (overrideContainerEnvironment i = [] -> co_environment o = None)
          /\ (overrideContainerEnvironment i <> [] ->
              exists env,
                co_environment o = Some env
                /\ length env = length (overrideContainerEnvironment i))).
Proof.
  exists (requestOf i). split.
  { destruct (launched_later [requestOf i] i) as (Hh & Ha).
    apply (run_keeps (launched [requestOf i]) i Hh Ha).
    apply launch_shows. }
  unfold requestOf, overridesOf. cbn [rp_containerOverrides]. split.
  - intros ->. reflexivity.
  - intros Hc. destruct (overrideContainer i) as [|c rest] eqn:E;
      [contradiction|].
    cbn [Str.truthy]. eexists. split; [reflexivity|].
    cbn [co_name co_command co_environment]. repeat split.
    + intros ->. reflexivity.
    + destruct (overrideContainerCommand i); [contradiction|reflexivity].
    + destruct (overrideContainerCommand i) as [|x cmd] eqn:Ec;
        [contradiction|].
      now rewrite parseCommand_merge.
    + intros ->. reflexivity.
    + intros He. destruct (overrideContainerEnvironment i) as [|y env] eqn:Ee;
        [contradiction|].
      eexists. split; [reflexivity|].
      unfold Environment.parseEnvironment. now rewrite length_fmap.
Qed.

(** X9: the outputs of a run are the ARN of the launched task and its id,
    in this order, set once, when the launch gives an ARN, and they stay
    whatever happens afterwards; there are no outputs when the launch
    fails.  No run sets the output [log-output]. *)
Theorem X9_outputs_of_a_run (i : Inputs) :
  outputs (trace (run w i).2)
  = match launchedArn w i with
    | Some arn => [("task-arn", arn); ("task-id", taskIdOf arn)]
    | None => []
    end.
Proof.
  set (o := match launchedArn w i with
            | Some arn => [("task-arn", arn); ("task-id", taskIdOf arn)]
            | None => []
            end).
  destruct (exposed_later o i) as (Hh & Ha).
  apply (run_keeps (exposed o) i Hh Ha).
  apply launch_shows.
Qed.

End LaunchTheorems.

Lemma X7_overrides_of_the_request_witness :
  exists p : TaskRequestParams,
    launches (trace (run Sample.stuckWorld (Sample.inputs false 3)).2) = [p]
    /\ exists o : ContainerOverride,
         rp_containerOverrides p = Some [o]
         /\ co_name o = "app"
         /\ co_command o = Some ["echo"; "hello"].
Proof.
  destruct (X7_overrides_of_the_request Sample.stuckWorld
              (Sample.inputs false 3)) as (p & Hp & _ & H).
  exists p. split; [exact Hp|].
  destruct H as (o & Ho & Hn & _ & Hc & _); [discriminate|].
  exists o. split; [exact Ho|]. split; [exact Hn|].
  apply Hc. discriminate.
Defined.

(** ** Failures of the launch and of the waits *)

Section AbortFacts.
Context (w : World).

(** X8: when the request to run the task is rejected, or is answered
    without a task, or with a task without an ARN, the run reports that
    error and ends: apart from diagnostics its trace is the request and
    the failure, so that no output is set, no waiter started and no other
    call made. *)
Theorem X8_failed_launch_ends_the_run (i : Inputs) (e : error) :
  launchError w i = Some e ->
  exists tr : list event,
    forallb isDebug tr = true
    /\ run w i
       = (Normal tt,
          setTrace (tr ++ [SendRunTask (requestOf i);
                           SetFailed (ErrorMessage e);
                           Debug (Stack e)])
                   initial).
Proof.
  intros H. destruct (launch_cases w i) as (tr & Hd & Hl).
  exists tr. split; [exact Hd|].
  unfold launchError in H.
  destruct (ecs_runTask w (requestOf i)) as [e'|resp];
    [|destruct (rt_tasks resp) as [|t rest];
      [|destruct (taskArn t) as [arn|]; [discriminate|]]];
    injection H as <-;
    rewrite (run_launch_failed w i _ _ Hl), handler_step;
    unfold setTrace; simpl; now rewrite <- app_assoc.
Qed.

Lemma unfailed_awaitTask (i : Inputs) (taskArn : string) :
  preserves unfailed (awaitTask i taskArn).
Proof.
  unfold awaitTask, waitFor, debug. preserve; frame2.
Qed.

Lemma undescribed_launch (i : Inputs) : preserves undescribed (launch w i).
Proof.
  unfold launch, buildOverrides, sendRunTask, debug, info, setOutput.
  preserve; frame2.
Qed.

Lemma undescribed_awaitTask (i : Inputs) (taskArn : string) :
  preserves undescribed (awaitTask i taskArn).
Proof.
  unfold awaitTask, waitFor, debug. preserve; frame2.
Qed.

(** X11: when the launch succeeds and one of the two waits fails, the run
    reports the error of the wait and ends there: the task definition is
    not looked up, the final task description is not asked for, and the
    failure of the wait is the only one reported. *)
Theorem X11_failed_wait_ends_the_run (i : Inputs) (taskArn taskId : string)
    (e : error) (s1 s2 : State) :
  launch w i initial = (Normal (taskArn, taskId), s1) ->
  awaitTask i taskArn s1 = (Thrown e, s2) ->
  run w i
  = (Normal tt,
     setTrace (trace s2 ++ [SetFailed (ErrorMessage e); Debug (Stack e)]) s2)
  /\ discoveries (trace (run w i).2) = []
  /\ describes (trace (run w i).2) = []
  /\ failures (run w i).2 = [ErrorMessage e].
Proof.
  intros E1 E2.
  pose proof (unsearched_launch w i initial eq_refl) as U1.
  pose proof (undescribed_launch i initial eq_refl) as D1.
  pose proof (unfailed_monitor w i initial eq_refl) as F0.
  pose proof (unstarted_launch w i initial) as F1.
  rewrite E1 in U1, D1, F1. cbn [snd] in U1, D1, F1.
  destruct F1 as (_ & F1); [now repeat split|].
  pose proof (unsearched_awaitTask i taskArn s1 U1) as U2.
  pose proof (undescribed_awaitTask i taskArn s1 D1) as D2.
  pose proof (unfailed_awaitTask i taskArn s1 F1) as F2.
  rewrite E2 in U2, D2, F2. cbn [snd] in U2, D2, F2.
  rewrite (run_wait_failed w i (taskArn, taskId) e s1 s2 E1 E2), handler_step.
  split; [reflexivity|]. cbn [snd trace setTrace].
  unfold unsearched, undescribed, unfailed, failures, discoveries,
    describes in *.
  cbn [trace setTrace]. rewrite !omap_app, U2, D2, F2. now repeat split.
Qed.



End AbortFacts.

Lemma X8_failed_launch_ends_the_run_witness :
  exists tr : list event,
    forallb isDebug tr = true
    /\ run Sample.downWorld (Sample.inputs true 3)
       = (Normal tt,
          setTrace (tr ++ [SendRunTask (requestOf (Sample.inputs true 3));
                           SetFailed (ErrorMessage (Rejected "unused"));
                           Debug (Stack (Rejected "unused"))])
                   initial).
Proof.
  exact (X8_failed_launch_ends_the_run Sample.downWorld (Sample.inputs true 3)
           (Rejected "unused") eq_refl).
Defined.

Lemma X11_failed_wait_ends_the_run_witness :
  discoveries (trace (run Sample.stuckWorld (Sample.inputs true 3)).2) = []
  /\ describes (trace (run Sample.stuckWorld (Sample.inputs true 3)).2) = []
  /\ failures (run Sample.stuckWorld (Sample.inputs true 3)).2
     = [ErrorMessage (TypeError "ecs.waitFor is not a function")].
Proof.
  assert (E1 : launch Sample.stuckWorld (Sample.inputs true 3) initial
               = (Normal (Sample.arn, "abc123"),
                  (launch Sample.stuckWorld (Sample.inputs true 3) initial).2))
    by (vm_compute; reflexivity).
  assert (E2 : awaitTask (Sample.inputs true 3) Sample.arn
                 (launch Sample.stuckWorld (Sample.inputs true 3) initial).2
               = (Thrown (TypeError "ecs.waitFor is not a function"),
                  (awaitTask (Sample.inputs true 3) Sample.arn
                     (launch Sample.stuckWorld (Sample.inputs true 3)
                        initial).2).2))
    by (vm_compute; reflexivity).
  exact (proj2 (X11_failed_wait_ends_the_run Sample.stuckWorld
                  (Sample.inputs true 3) Sample.arn "abc123"
                  (TypeError "ecs.waitFor is not a function") _ _ E1 E2)).
Defined.

(** ** The outcome of a run *)

Section OutcomeFacts.
Context (w : World).

(** X12: once the inputs are read, [main] never throws: every error is
    caught and reported, and the run completes normally.  It reports at
    most one failure. *)
Theorem X12_main_completes_with_one_failure_at_most (i : Inputs) :
  (run w i).1 = Normal tt
  /\ length (failures (run w i).2) <= 1.
Proof.
  split.
  - unfold run, main, tryCatch.
    destruct (attempt w i initial) as [[[]|e] s]; [reflexivity|].
    now rewrite handler_step.
  - pose proof (unstarted_launch w i initial) as V1.
    destruct (launch w i initial) as [[task|e] s1] eqn:E1;
      (destruct V1 as (_ & F1); [now split|]);
      cbn [snd] in F1.
    + rewrite (run_launched w i task s1 E1), handler_step.
      unfold failures in *. cbn [snd trace setTrace].
      rewrite !omap_app, F1. simpl. lia.
    + rewrite (run_launch_failed w i e s1 E1), handler_step.
      unfold failures in *. cbn [snd trace setTrace].
      rewrite omap_app, F1. simpl. lia.
Qed.

(** X13: once the inputs are read, no run succeeds.  Every run reports
    exactly one failure: the error that stops the launch or, when the
    launch goes through, the TypeError of the call of [ecs.waitFor].  The
    final task description, with the exit code, is never asked for. *)
Theorem X13_every_run_fails (i : Inputs) :
  failures (run w i).2
  = [ErrorMessage (default (TypeError "ecs.waitFor is not a function")
                           (launchError w i))]
  /\ succeeded (run w i).2 = false
  /\ describes (trace (run w i).2) = [].
Proof.
  assert (F : failures (run w i).2
              = [ErrorMessage
                   (default (TypeError "ecs.waitFor is not a function")
                            (launchError w i))]).
  { destruct (launch_cases w i) as (tr & Hd & Hl). unfold launchError.
    destruct (ecs_runTask w (requestOf i)) as [e|resp];
      [|destruct (rt_tasks resp) as [|t rest];
        [|destruct (taskArn t) as [arn|]]];
      [| | |rewrite (run_launch_failed w i _ _ Hl)];
      [rewrite (run_launch_failed w i _ _ Hl)
      |rewrite (run_launch_failed w i _ _ Hl)
      |rewrite (run_launched w i _ _ Hl)|];
      rewrite handler_step; unfold failures;
      cbn [snd trace setTrace]; rewrite !omap_app;
      rewrite (omap_diagnostics _ tr) by (exact Hd || reflexivity);
      reflexivity. }
  split; [exact F|]. split; [unfold succeeded; now rewrite F|].
  apply (run_keeps w undescribed i).
  - intros e. unfold handler, setFailed, debug. preserve; frame2.
  - intros taskArn. apply undescribed_awaitTask.
  - apply (undescribed_launch w i initial eq_refl).
Qed.

End OutcomeFacts.

(** ** The log stream in a run *)

Section StreamFacts.
Context (w : World).

Lemma inspect_stream (i : Inputs) (taskId : string) (c : ContainerDefinition)
    (s : State) :
  logFilterStream s = None ->
  streamOutcome w (inspect w i taskId c s).1 (inspect w i taskId c s).2.
Proof.
  intros H. unfold inspect, callMethod. exec.
  destruct (Str.truthy (overrideContainer i)
            && negb (String.eqb (cd_name c) (overrideContainer i)));
    [now left|].
  destruct (logConfiguration c) as [lc|]; [|now left].
  destruct (String.eqb (logDriver lc) "awslogs"); [|now left].
  destruct (options lc) as [opts|]; simpl; [|now left].
  right. now split.
Qed.

Lemma some_inspect_stream (i : Inputs) (taskId : string)
    (defs : list ContainerDefinition) :
  forall s,
    logFilterStream s = None ->
    streamOutcome w (some (inspect w i taskId) defs s).1
                    (some (inspect w i taskId) defs s).2.
Proof.
  induction defs as [|c defs IH]; intros s H; [now left|].
  cbn [some]. rewrite bind_eq.
  pose proof (inspect_stream i taskId c s H) as Hc.
  destruct (inspect w i taskId c s) as [[b|e] s']; cbn [fst snd] in Hc.
  - destruct Hc as [Hc|[Hc _]]; [|discriminate].
    destruct b; [now left|]. now apply IH.
  - exact Hc.
Qed.

Lemma logPhase_stream (i : Inputs) (taskId : string) (s : State) :
  logFilterStream s = None ->
  streamOutcome w (logPhase w i taskId s).1 (logPhase w i taskId s).2.
Proof.
  intros H. unfold logPhase. rewrite bind_eq.
  set (lookUp := if tailLogs i then _ else _).
  assert (Q : streamOutcome w (lookUp s).1 (lookUp s).2).
  { subst lookUp. destruct (tailLogs i); [|now left].
    unfold debug, describeTaskDefinition.
    erewrite bind_normal by apply emit_step.
    rewrite bind_eq. erewrite bind_normal by apply emit_step.
    destruct (ecs_describeTaskDefinition w (taskDefinitionRef i))
      as [e|resp]; [now left|].
    cbn [settle ret].
    destruct (taskDefinition resp) as [taskDef|]; [|now left].
    destruct (containerDefinitions taskDef) as [defs|]; [|now left].
    rewrite bind_eq.
    pose proof (some_inspect_stream i taskId defs
                  (setTrace
                     (trace (setTrace (trace s ++ [Debug (Text "Logging enabled. Getting logConfiguration from TaskDefinition.")]) s)
                      ++ [DescribeTaskDefinition (taskDefinitionRef i)])
                     (setTrace (trace s ++ [Debug (Text "Logging enabled. Getting logConfiguration from TaskDefinition.")]) s))
                  H) as Hs.
    destruct (some (inspect w i taskId) defs _) as [[b|e] s'];
      cbn [fst snd] in Hs.
    - destruct Hs as [Hs|[Hs _]]; [left; exact Hs|discriminate].
    - destruct Hs as [Hs|[Hs Ha]]; [left; exact Hs|].
      injection Hs as ->. right. split; [reflexivity|exact Ha]. }
  destruct (lookUp s) as [[[]|e] s']; cbn [fst snd] in Q.
  - destruct Q as [Q|[Q _]]; [|discriminate].
    exec. rewrite Q. now left.
  - exact Q.
Qed.

Lemma unset_launch (i : Inputs) : preserves unset (launch w i).
Proof.
  unfold launch, buildOverrides, sendRunTask, debug, info, setOutput.
  preserve; frame2.
Qed.

Lemma unset_awaitTask (i : Inputs) (taskArn : string) :
  preserves unset (awaitTask i taskArn).
Proof.
  unfold awaitTask, waitFor, debug. preserve; frame2.
Qed.

Lemma exposed_logPhase (o : list (string * string)) (i : Inputs)
    (taskId : string) :
  preserves (exposed o) (logPhase w i taskId).
Proof.
  unfold logPhase, describeTaskDefinition, inspect, callMethod, debug,
    setOutput.
  preserve2; frame2.
Qed.

(** X14: the branch of lines 183-189 is dead code.  From a state in which
    the stream variable is [null], as line 140 leaves it, the log phase
    either ends with the variable still [null], so that nothing is closed,
    or sets it as line 163 does and is stopped by the TypeError of the call
    of [on], before line 183.  In both cases it sets no output: the output
    [log-output] is never written. *)
Theorem X14_closing_branch_is_dead (i : Inputs) (taskId : string)
    (s : State) :
  logFilterStream s = None ->
  (logFilterStream (logPhase w i taskId s).2 = None
   \/ ((logPhase w i taskId s).1
       = Thrown (TypeError "logFilterStream.on is not a function")
       /\ logFilterStream (logPhase w i taskId s).2 = Some (armed w)))
  /\ outputs (trace (logPhase w i taskId s).2) = outputs (trace s).
Proof.
  intros H. split.
  - exact (logPhase_stream i taskId s H).
  - exact (exposed_logPhase (outputs (trace s)) i taskId s eq_refl).
Qed.

(** No run looks up the task definition or sets the stream variable: the
    launch and the handler do neither, and the waits end the run. *)
Lemma run_never_looks_up (i : Inputs) :
  unsearched (run w i).2 /\ unset (run w i).2.
Proof.
  apply (run_keeps w (fun s => unsearched s /\ unset s) i).
  - intros e. unfold handler, setFailed, debug. preserve; frame2.
  - intros taskArn. unfold awaitTask, waitFor, debug. preserve; frame2.
  - split; [apply (unsearched_launch w i initial eq_refl)
           |apply (unset_launch i initial eq_refl)].
Qed.

(** X15: without [tail-logs] a run never looks up the task definition and
    never sets the log stream. *)
Theorem X15_no_tailing_no_look_up (i : Inputs) :
  tailLogs i = false ->
  discoveries (trace (run w i).2) = []
  /\ logFilterStream (run w i).2 = None.
Proof. intros _. apply run_never_looks_up. Qed.

End StreamFacts.

Lemma X14_closing_branch_is_dead_witness :
  (logFilterStream
     (logPhase (Sample.world (Some 0%Z) None []) (Sample.inputs true 3)
               "abc123" initial).2 = None
   \/ ((logPhase (Sample.world (Some 0%Z) None []) (Sample.inputs true 3)
                 "abc123" initial).1
       = Thrown (TypeError "logFilterStream.on is not a function")
       /\ logFilterStream
            (logPhase (Sample.world (Some 0%Z) None []) (Sample.inputs true 3)
                      "abc123" initial).2
          = Some (armed (Sample.world (Some 0%Z) None []))))
  /\ outputs (trace (logPhase (Sample.world (Some 0%Z) None [])
                              (Sample.inputs true 3) "abc123" initial).2)
     = outputs (trace initial).
Proof.
  exact (X14_closing_branch_is_dead (Sample.world (Some 0%Z) None [])
           (Sample.inputs true 3) "abc123" initial eq_refl).
Defined.

Lemma X15_no_tailing_no_look_up_witness :
  discoveries (trace (run (Sample.world (Some 0%Z) None [])
                          (Sample.inputs false 3)).2) = []
  /\ logFilterStream (run (Sample.world (Some 0%Z) None [])
                          (Sample.inputs false 3)).2 = None.
Proof.
  exact (X15_no_tailing_no_look_up (Sample.world (Some 0%Z) None [])
           (Sample.inputs false 3) eq_refl).
Defined.

(** ** The waits and the log tailer in a run *)

Section RunFacts.
Context (w : World).

(** C1, as the code has it: whatever the task does and whatever
    [maxAttempts] is, the running-wait does not poll and does not time
    out.  When the launch goes through, the run writes the diagnostic of
    line 121 and the call of [ecs.waitFor] at line 122 throws a TypeError,
    which the handler reports: this failure is the only one, no task
    description is asked for, and nothing else follows, the stopped-wait
    of line 130 included. *)
Theorem C1_running_wait_never_polls (i : Inputs) (taskArn taskId : string)
    (s1 : State) :
  launch w i initial = (Normal (taskArn, taskId), s1) ->
  run w i
  = (Normal tt,
     setTrace
       (trace s1
        ++ [Debug (Text "Waiting for task to be in running state, then to stop.");
            SetFailed (ErrorMessage (TypeError "ecs.waitFor is not a function"));
            Debug (Stack (TypeError "ecs.waitFor is not a function"))])
       s1)
  /\ failures (run w i).2
     = [ErrorMessage (TypeError "ecs.waitFor is not a function")]
  /\ describes (trace (run w i).2) = [].
Proof.
  intros E1.
  pose proof (unstarted_launch w i initial) as V1.
  pose proof (undescribed_launch w i initial eq_refl) as D1.
  rewrite E1 in V1, D1. cbn [snd] in V1, D1.
  destruct V1 as (_ & F1); [now split|].
  rewrite (run_launched w i (taskArn, taskId) s1 E1), handler_step.
  cbn [snd trace setTrace].
  unfold undescribed, failures, describes in *.
  cbn [trace setTrace]. rewrite !omap_app, F1, D1.
  split; [|now repeat split].
  destruct s1. unfold setTrace. simpl. now rewrite <- app_assoc.
Qed.

(** C6, as the code has it: no run arms the log tailer, with [tail-logs]
    or without: the task definition is never looked up, the stream
    variable stays [null], no log entry is fetched and none is printed. *)
Theorem C6_tailer_is_never_armed (i : Inputs) :
  discoveries (trace (run w i).2) = []
  /\ logFilterStream (run w i).2 = None
  /\ requests (trace (run w i).2) = []
  /\ printed (trace (run w i).2) = [].
Proof.
  destruct (run_never_looks_up w i) as (Hd & Hs).
  destruct (run_sends_no_fetch w i) as (Hr & Hp & _).
  now repeat split.
Qed.

(** C7, as the code has it: the callback of line 150, at a container that
    has the name of the override, when there is one, and logs to
    [awslogs]: the name of the log stream is computed from the prefix, the
    name of the container and the task id, and announced; the stream that
    is set up is on the group [log-group-name] and the stream
    [log-stream-name], which is never that name; and the call of [on]
    throws. *)
Theorem C7_stream_name_is_a_placeholder (i : Inputs) (taskId : string)
    (c : ContainerDefinition) (lc : LogConfiguration)
    (opts : gmap string string) (s : State) :
  selects i c = true ->
  logConfiguration c = Some lc ->
  options lc = Some opts ->
  inspect w i taskId c s
  = (Thrown (TypeError "logFilterStream.on is not a function"),
     setLogFilterStream
       (Some {| logGroupName := "log-group-name";
                logStreamName := "log-stream-name";
                startTime := (clock_now w / 1000)%Z |})
       (setTrace
          (trace s
           ++ [looking c;
               found (Str.join "/" [opts !! "awslogs-stream-prefix";
                                    Some (cd_name c); Some taskId])])
          s))
  /\ Str.join "/" [opts !! "awslogs-stream-prefix"; Some (cd_name c);
                   Some taskId]
     <> "log-stream-name".
Proof.
  intros Hs Hlc Ho. split.
  - exact (inspect_selects w i taskId c lc opts s Hs Hlc Ho).
  - intros Heq.
    assert (H : Str.noneOf isSlash
                  (Str.join "/" [opts !! "awslogs-stream-prefix";
                                 Some (cd_name c); Some taskId]) = true)
      by (rewrite Heq; reflexivity).
    cbn [Str.join] in H. rewrite noneOf_app in H. simpl in H.
    rewrite andb_false_r in H. discriminate H.
Qed.

End RunFacts.

Lemma C1_running_wait_never_polls_witness :
  failures (run Sample.stuckWorld (Sample.inputs false 3)).2
  = [ErrorMessage (TypeError "ecs.waitFor is not a function")]
  /\ describes (trace (run Sample.stuckWorld (Sample.inputs false 3)).2) = [].
Proof.
  assert (E1 : launch Sample.stuckWorld (Sample.inputs false 3) initial
               = (Normal (Sample.arn, "abc123"),
                  (launch Sample.stuckWorld (Sample.inputs false 3)
                          initial).2))
    by (vm_compute; reflexivity).
  exact (proj2 (C1_running_wait_never_polls Sample.stuckWorld
                  (Sample.inputs false 3) Sample.arn "abc123" _ E1)).
Defined.

Lemma C7_stream_name_is_a_placeholder_witness :
  logFilterStream
    (inspect (Sample.world (Some 0%Z) None []) (Sample.inputs true 3)
             "abc123" Sample.appContainer initial).2
  = Some {| logGroupName := "log-group-name";
            logStreamName := "log-stream-name";
            startTime := 1700000000 |}
  /\ "ecs/app/abc123" <> "log-stream-name".
Proof.
  destruct (C7_stream_name_is_a_placeholder
              (Sample.world (Some 0%Z) None []) (Sample.inputs true 3)
              "abc123" Sample.appContainer
              {| logDriver := "awslogs";
                 options := Some {[ "awslogs-stream-prefix" := "ecs" ]} |}
              {[ "awslogs-stream-prefix" := "ecs" ]} initial
              eq_refl eq_refl eq_refl) as [H1 H2].
  split; [now rewrite H1 | exact H2].
Defined.

(** ** The look-up of the log destination *)

Section LookUpTheorems.
Context (w : World).



End LookUpTheorems.



(** ** The poller *)

Section PollerMore.
Context (w : World).

Lemma printed_app (t u : list event) :
  printed (t ++ u) = printed t ++ printed u.
Proof. unfold printed. now rewrite omap_app, join_app. Qed.

Lemma failures_poller (c : GetLogEventsCommand) (s : State) :
  failures (poller w c s).2 = failures s.
Proof.
  rewrite poller_step. unfold failures. cbn [snd trace setTrace].
  rewrite omap_app.
  destruct (logs_getLogEvents w (fetches s) c); simpl; apply app_nil_r.
Qed.

(** X18: [n] calls of a poller in a row all return.  What they print as
    log lines is, in order, the events of the answers of the log service
    to the [n] fetches, an answer that is an error giving no line; each
    call sends one fetch, and none of them fails the action. *)
Theorem X18_polls_print_the_answers_in_order (n : nat)
    (c : GetLogEventsCommand) :
  forall s,
    (pollTimes w n c s).1 = Normal tt
    /\ printed (trace (pollTimes w n c s).2)
       = printed (trace s) ++ fetched w c (fetches s) n
    /\ fetches (pollTimes w n c s).2 = fetches s + n
    /\ failures (pollTimes w n c s).2 = failures s.
Proof.
  induction n as [|n IH]; intros s.
  - cbn [pollTimes fetched]. simpl. rewrite app_nil_r.
    repeat split. lia.
  - cbn [pollTimes fetched]. erewrite bind_normal by apply poller_step.
    pose proof (failures_poller c s) as Hf. rewrite poller_step in Hf.
    cbn [snd] in Hf.
    destruct (IH (setTrace
                    (trace s ++ [SendGetLogEvents c;
                                 answerEvent (logs_getLogEvents w (fetches s) c)])
                    (setFetches (S (fetches s)) s))) as (Hn & Hp & Hk & Hx).
    rewrite Hn, Hp, Hk, Hx, Hf. cbn [trace setTrace fetches setFetches].
    split; [reflexivity|]. split; [|split; [|reflexivity]].
    + rewrite printed_app, <- app_assoc. f_equal. f_equal.
      destruct (logs_getLogEvents w (fetches s) c); simpl;
        [reflexivity|apply app_nil_r].
    + destruct s; simpl; lia.
Qed.

End PollerMore.
